(** * Peer admission, credential index and Binding responder of the TURN relay

    A shallow embedding of [examples/turn-server/perm-filter/main.go] and of
    [handleBindingRequest] of the server package, together with the parts of
    the Go standard library and of the STUN codec that these functions call.

    Go values are represented as follows: a Go [string] is a [string] (a
    sequence of 8-bit characters), a [[]byte] is a [list byte], a Go [int]
    is a [Z], a [map[string][]byte] is a [gmap string (list byte)].  Code
    with effects (logging, the packet connection) runs in the monad [Exec]
    over an explicit [World]. *)

From Stdlib Require Import ZArith NArith List Bool Lia.
From Stdlib.Strings Require Import String Ascii Byte.
From Stdlib Require Import DecimalString.
From Stdlib Require DecimalPos DecimalN.
From stdpp Require Import base option gmap strings list.

Import ListNotations.
Local Open Scope string_scope.
Local Open Scope list_scope.

(** ** Go strings *)

Module GoString.

(** [s[i:]] for [i <= len(s)]. *)
Fixpoint drop (i : nat) (s : string) : string :=
  match i, s with
  | O, _ => s
  | S _, EmptyString => EmptyString
  | S j, String _ s' => drop j s'
  end.

(** [s[:i]] for [i <= len(s)]. *)
Fixpoint take (i : nat) (s : string) : string :=
  match i, s with
  | O, _ => EmptyString
  | S _, EmptyString => EmptyString
  | S j, String c s' => String c (take j s')
  end.

(** [strings.HasPrefix(s, p)]. *)
Fixpoint HasPrefix (s p : string) : bool :=
  match p, s with
  | EmptyString, _ => true
  | String _ _, EmptyString => false
  | String a p', String b s' => Ascii.eqb a b && HasPrefix s' p'
  end.

(** [strings.Index(s, substr)]: the index of the first instance of
    [substr] in [s]; [None] stands for the result [-1]. *)
Fixpoint Index (s substr : string) : option nat :=
  if HasPrefix s substr then Some O
  else match s with
       | EmptyString => None
       | String _ s' => S <$> Index s' substr
       end.

(** The loop of [strings.genSplit]:
    [for i < n { m := Index(s, sep); if m < 0 { break };
                 a[i] = s[:m]; s = s[m+len(sep):]; i++ }; a[i] = s]. *)
Fixpoint splitLoop (n : nat) (s sep : string) : list string :=
  match n with
  | O => [s]
  | S n' =>
      match Index s sep with
      | None => [s]
      | Some m => take m s :: splitLoop n' (drop (m + String.length sep) s) sep
      end
  end.

(** [strings.SplitN(s, sep, n)] for a non-empty [sep] and [n >= 0]: [nil]
    for [n = 0]; otherwise [n] is capped at [len(s)+1] and the loop above
    runs for at most [n-1] rounds. *)
Definition SplitN (s sep : string) (n : nat) : list string :=
  match n with
  | O => []
  | S _ => splitLoop (Nat.min n (S (String.length s)) - 1) s sep
  end.

(** [strings.IndexByte(s, c) >= 0]. *)
Fixpoint ContainsByte (c : ascii) (s : string) : bool :=
  match s with
  | EmptyString => false
  | String a s' => Ascii.eqb a c || ContainsByte c s'
  end.

(** [strconv.Itoa] / [itoa.Itoa]: decimal text of an [int]. *)
Definition Itoa (i : Z) : string :=
  NilZero.string_of_int (Z.to_int i).

End GoString.

(** ** Package [net]: IP addresses and transport addresses *)

Module Net.

(** [net.IP] is a byte slice. *)
Definition IP := list byte.

Definition IPv4len : nat := 4.
Definition IPv6len : nat := 16.

Definition byteZ (b : byte) : Z := Z.of_N (Byte.to_N b).

(** [bytealg.isZeros]. *)
Definition isZeros (p : list byte) : bool := forallb (Byte.eqb x00) p.

(** [ip[i] == c]. *)
Definition byteAt (ip : list byte) (i : nat) (c : byte) : bool :=
  match ip !! i with
  | Some b => Byte.eqb b c
  | None => false
  end.

(** [ip.To4()]: the 4-byte form of an IPv4 address, which may be given by
    4 bytes or by the 16 bytes of an IPv4-mapped address; [None] for [nil]. *)
Definition To4 (ip : IP) : option IP :=
  if (List.length ip =? IPv4len)%nat then Some ip
  else if (List.length ip =? IPv6len)%nat && isZeros (take 10 ip) &&
          byteAt ip 10 xff && byteAt ip 11 xff
  then Some (take 4 (drop 12 ip))
  else None.

(** The table ["0123456789abcdef"] indexed by a 4-bit value. *)
Definition hexDigit (n : Z) : ascii :=
  match Z.land n 15 with
  | 0 => "0" | 1 => "1" | 2 => "2" | 3 => "3" | 4 => "4" | 5 => "5"
  | 6 => "6" | 7 => "7" | 8 => "8" | 9 => "9" | 10 => "a" | 11 => "b"
  | 12 => "c" | 13 => "d" | 14 => "e" | _ => "f"
  end%Z%char.

(** [hexString(b)]: two lower-case hex digits per byte. *)
Fixpoint hexString (b : list byte) : string :=
  match b with
  | [] => ""
  | x :: b' =>
      String (hexDigit (Z.shiftr (byteZ x) 4))
        (String (hexDigit (byteZ x)) (hexString b'))
  end.

(** [appendHex]: a 16-bit group in hex without leading zeros. *)
Definition appendHex (x : Z) : string :=
  ((if 0x1000 <=? x then String (hexDigit (Z.shiftr x 12)) "" else "") +:+
   (if 0x100 <=? x then String (hexDigit (Z.shiftr x 8)) "" else "") +:+
   (if 0x10 <=? x then String (hexDigit (Z.shiftr x 4)) "" else "") +:+
   String (hexDigit x) "")%Z.

(** The eight 16-bit groups of a 16-byte address ([v6u16]). *)
Fixpoint groups (ip : list byte) : list Z :=
  match ip with
  | hi :: lo :: rest => (byteZ hi * 256 + byteZ lo)%Z :: groups rest
  | _ => []
  end.

(** Number of leading zero groups: the inner loop
    [for j < 8 && v6u16(j) == 0 { j+:+ }]. *)
Fixpoint zeroRun (g : list Z) : nat :=
  match g with
  | 0%Z :: g' => S (zeroRun g')
  | _ => O
  end.

(** The outer loop of [appendTo6] that finds the zero run to compress:
    group index [i], remaining groups [g], best run so far as
    [(zeroStart, zeroEnd)].  A run must have length at least 2 and be
    strictly longer than the best so far. *)
Fixpoint longestZeroRun (i : nat) (g : list Z) (best : option (nat * nat))
  : option (nat * nat) :=
  match g with
  | [] => best
  | _ :: g' =>
      let l := zeroRun g in
      let bestLen := match best with Some (s, e) => e - s | None => 0 end in
      let best' :=
        if (2 <=? l)%nat && (bestLen <? l)%nat then Some (i, i + l) else best in
      longestZeroRun (S i) g' best'
  end.

(** The printing loop of [appendTo6] from group index [i] on. *)
Fixpoint printGroups (fuel i : nat) (g : list Z) (zero : option (nat * nat))
  : string :=
  match fuel with
  | O => ""
  | S fuel' =>
      if (8 <=? i)%nat then ""
      else
        match zero with
        | Some (zs, ze) =>
            if (i =? zs)%nat then
              "::" +:+
              (if (8 <=? ze)%nat then ""
               else appendHex (nth ze g 0%Z) +:+ printGroups fuel' (S ze) g zero)
            else
              (if (0 <? i)%nat then ":" else "") +:+
              appendHex (nth i g 0%Z) +:+ printGroups fuel' (S i) g zero
        | None =>
            (if (0 <? i)%nat then ":" else "") +:+
            appendHex (nth i g 0%Z) +:+ printGroups fuel' (S i) g zero
        end
  end.

(** Text of a 16-byte address that is not IPv4-mapped. *)
Definition string6 (ip : list byte) : string :=
  let g := groups ip in
  printGroups 8 0 g (longestZeroRun 0 g None).

Definition utoa (b : byte) : string :=
  NilZero.string_of_uint (N.to_uint (Byte.to_N b)).

(** Dotted-decimal text of a 4-byte address. *)
Definition string4 (ip : list byte) : string :=
  String.concat "." (map utoa ip).

(** [ip.String()]. *)
Definition IP_String (ip : IP) : string :=
  if (List.length ip =? 0)%nat then "<nil>"
  else if negb ((List.length ip =? IPv4len)%nat || (List.length ip =? IPv6len)%nat)
  then "?" +:+ hexString ip
  else match To4 ip with
       | Some p4 => string4 p4
       | None => string6 ip
       end.

(** A [net.Addr]: the two address types the relay distinguishes, and any
    other implementation of the interface given by its [Network()] and
    [String()] results.  Every value is an address; the nil interface value
    is not represented. *)
Inductive Addr : Type :=
| UDPAddr (ip : IP) (port : Z) (zone : string)
| TCPAddr (ip : IP) (port : Z) (zone : string)
| OtherAddr (network text : string).

(** [net.JoinHostPort]: a host that contains a colon is put in brackets. *)
Definition JoinHostPort (host port : string) : string :=
  if GoString.ContainsByte ":" host
  then "[" +:+ host +:+ "]:" +:+ port
  else host +:+ ":" +:+ port.

Definition ipEmptyString (ip : IP) : string :=
  if (List.length ip =? 0)%nat then "" else IP_String ip.

Definition ipPortString (ip : IP) (port : Z) (zone : string) : string :=
  if negb (String.eqb zone "")
  then JoinHostPort (ipEmptyString ip +:+ "%" +:+ zone) (GoString.Itoa port)
  else JoinHostPort (ipEmptyString ip) (GoString.Itoa port).

(** [a.String()]. *)
Definition Addr_String (a : Addr) : string :=
  match a with
  | UDPAddr ip port zone => ipPortString ip port zone
  | TCPAddr ip port zone => ipPortString ip port zone
  | OtherAddr _ text => text
  end.

End Net.

Import Net.

(** ** Effects: panics, the log and the packet connection *)

(** Go [error] values that occur in the modelled code. *)
Inductive error : Type :=
| errFailedToCastAddr           (* ipnet: the address is neither UDP nor TCP *)
| ErrBadIPLength                (* stun: an IP that has neither 4 nor 16 bytes *)
| errTransport (reason : string). (* an error returned by [conn.WriteTo] *)

(** A run either returns a value or ends in a run-time panic (an index out
    of range). *)
Inductive Outcome (A : Type) : Type :=
| Done (a : A)
| Panic (msg : string).
Arguments Done {A} a.
Arguments Panic {A} msg.

#[global] Instance Outcome_ret : MRet Outcome := fun _ a => Done a.
#[global] Instance Outcome_bind : MBind Outcome := fun _ _ f o =>
  match o with
  | Done a => f a
  | Panic msg => Panic msg
  end.

(** [a[i]] on a slice. *)
Definition at_index {A : Type} (a : list A) (i : nat) : Outcome A :=
  match a !! i with
  | Some x => Done x
  | None => Panic "index out of range"
  end.

(** What a run leaves behind: lines written to a logger and datagrams handed
    to the packet connection, each with the result the connection gave. *)
Inductive Event : Type :=
| EvLog (line : string)
| EvWriteTo (conn : nat) (dst : Addr) (payload : list byte) (res : option error).

(** The world a handler runs in: the events so far, and the results that the
    network will give to the coming [WriteTo] calls ([None] is success; past
    the end of the script every write succeeds). *)
Record World : Type := mkWorld {
  trace : list Event;
  net_script : list (option error)
}.

Definition Exec (A : Type) : Type := World -> Outcome A * World.

#[global] Instance Exec_ret : MRet Exec := fun _ a w => (Done a, w).
#[global] Instance Exec_bind : MBind Exec := fun _ _ f c w =>
  match c w with
  | (Done a, w') => f a w'
  | (Panic msg, w') => (Panic msg, w')
  end.

Definition lift {A : Type} (o : Outcome A) : Exec A := fun w => (o, w).

Definition emit (e : Event) : Exec unit := fun w =>
  (Done tt, mkWorld (trace w ++ [e]) (net_script w)).

(** [log.Printf] and [Log.Debugf], with the formatted line. *)
Definition log_Printf (line : string) : Exec unit := emit (EvLog line).

(** [conn.WriteTo(payload, dst)]: the write and its result are recorded. *)
Definition WriteTo (conn : nat) (payload : list byte) (dst : Addr)
  : Exec (option error) := fun w =>
  let res := match net_script w with
             | r :: _ => r
             | [] => None
             end in
  (Done res, mkWorld (trace w ++ [EvWriteTo conn dst payload res])
                     (tail (net_script w))).

(** The events a run added to the trace. *)
Definition new_events (w w' : World) : list Event :=
  List.skipn (List.length (trace w)) (trace w').

(** The datagrams among some events, whatever the result of the write. *)
Definition writes (evs : list Event) : list (nat * Addr * list byte) :=
  omap (fun e => match e with
                 | EvWriteTo c dst b _ => Some (c, dst, b)
                 | EvLog _ => None
                 end) evs.

(** ** The permission handler of [main] *)

(** [PermissionHandler: func(clientAddr net.Addr, peerIP net.IP) bool]. *)
Definition PermissionHandler (clientAddr : Addr) (peerIP : IP) : Exec bool :=
  let clientIP := GoString.SplitN (Addr_String clientAddr) ":" 2 in
  host ← lift (at_index clientIP 0);
  if negb (String.eqb host (IP_String peerIP)) then
    log_Printf ("Blocking request from client IP " +:+ host +:+
                " to peer " +:+ IP_String peerIP);;
    mret false
  else
    log_Printf ("Admitting request from client IP " +:+ host +:+
                " to peer " +:+ IP_String peerIP);;
    mret true.

(** The decision alone, run in a given world. *)
Definition decision (clientAddr : Addr) (peerIP : IP) (w : World) : Outcome bool :=
  fst (PermissionHandler clientAddr peerIP w).

(** ** Package [regexp]: the fragment used by [main] *)

Module Regexp.

(** Regular expressions built from a literal byte, one or more bytes of a
    class (greedy), a numbered capture group and concatenation. *)
Inductive Regexp : Type :=
| Lit (c : ascii)
| PlusClass (cls : ascii -> bool)
| Cap (n : nat) (r : Regexp)
| Cat (r1 r2 : Regexp).

(** The perl class [\w], which is [[0-9A-Za-z_]]. *)
Definition isWord (c : ascii) : bool :=
  let n := nat_of_ascii c in
  (((48 <=? n) && (n <=? 57)) || ((65 <=? n) && (n <=? 90)) ||
   ((97 <=? n) && (n <=? 122)) || (n =? 95))%nat.

(** A way to match at the start of a string: the text consumed, the
    captures made, and the text left. *)
Definition Thread : Type := string * list (nat * string) * string.

(** The non-empty prefixes of [s] made of bytes of [cls], longest first,
    each with the text left. *)
Fixpoint runs (cls : ascii -> bool) (s : string) : list (string * string) :=
  match s with
  | EmptyString => []
  | String c s' =>
      if cls c then
        map (fun '(u, rest) => (String c u, rest)) (runs cls s')
          ++ [(String c EmptyString, s')]
      else []
  end.

(** All ways to match [r] at the start of [s], in the order in which a
    backtracking matcher tries them; the first is the one [regexp]
    reports (leftmost-first matching). *)
Fixpoint exec (r : Regexp) (s : string) : list Thread :=
  match r with
  | Lit c =>
      match s with
      | String a s' =>
          if Ascii.eqb a c then [(String a EmptyString, [], s')] else []
      | EmptyString => []
      end
  | PlusClass cls => map (fun '(u, rest) => (u, [], rest)) (runs cls s)
  | Cap n r' => map (fun '(u, caps, rest) => (u, (n, u) :: caps, rest)) (exec r' s)
  | Cat r1 r2 =>
      flat_map (fun '(u1, caps1, rest1) =>
                  map (fun '(u2, caps2, rest2) =>
                         (u1 +:+ u2, caps1 ++ caps2, rest2))
                      (exec r2 rest1))
               (exec r1 s)
  end.

(** [doExecute] from a position: the first match that starts at the
    leftmost possible byte of [s]. *)
Fixpoint search (r : Regexp) (s : string) : option Thread :=
  match head (exec r s) with
  | Some t => Some t
  | None =>
      match s with
      | EmptyString => None
      | String _ s' => search r s'
      end
  end.

(** [re.NumSubexp()]. *)
Fixpoint NumSubexp (r : Regexp) : nat :=
  match r with
  | Lit _ | PlusClass _ => 0
  | Cap n r' => Nat.max n (NumSubexp r')
  | Cat r1 r2 => Nat.max (NumSubexp r1) (NumSubexp r2)
  end.

(** The text of group [j]; the empty string for a group that took no
    part in the match. *)
Definition group (caps : list (nat * string)) (j : nat) : string :=
  match List.find (fun '(n, _) => (n =? j)%nat) caps with
  | Some (_, u) => u
  | None => EmptyString
  end.

(** The slice delivered for one match: the whole match, then the groups
    [1 .. NumSubexp]. *)
Definition submatch (r : Regexp) (t : Thread) : list string :=
  let '(u, caps, _) := t in
  u :: map (group caps) (seq 1 (NumSubexp r)).

(** The loop of [allMatches]: [n] counts the matches still allowed.  A
    match of a regexp of this fragment is never empty, so the next search
    starts where the match ended ([pos = matches[1]]). *)
Fixpoint allMatches (n : nat) (r : Regexp) (s : string) : list (list string) :=
  match n with
  | O => []
  | S n' =>
      match search r s with
      | None => []
      | Some ((_, _, rest) as t) => submatch r t :: allMatches n' r rest
      end
  end.

(** [re.FindAllStringSubmatch(s, n)]; a negative [n] stands for
    [len(s) + 1]. *)
Definition FindAllStringSubmatch (r : Regexp) (s : string) (n : Z)
  : list (list string) :=
  allMatches (if (n <? 0)%Z then S (String.length s) else Z.to_nat n) r s.

End Regexp.

(** ** The credential index of [main] *)

Section Credentials.

(** [turn.GenerateAuthKey(username, realm, password)], the long-term
    credential key derivation; its code is not part of the modelled
    sources, so it is a parameter. *)
Variable GenerateAuthKey : string -> string -> string -> list byte.

(** [regexp.MustCompile(`(\w+)=(\w+)`)]. *)
Definition usersRE : Regexp.Regexp :=
  Regexp.Cat (Regexp.Cap 1 (Regexp.PlusClass Regexp.isWord))
    (Regexp.Cat (Regexp.Lit "=")
       (Regexp.Cap 2 (Regexp.PlusClass Regexp.isWord))).

(** One round of the loop: [usersMap[kv[1]] = GenerateAuthKey(kv[1], realm, kv[2])]. *)
Definition insertUser (realm : string) (usersMap : gmap string (list byte))
  (kv : list string) : Outcome (gmap string (list byte)) :=
  username ← at_index kv 1;
  password ← at_index kv 2;
  mret (<[username := GenerateAuthKey username realm password]> usersMap).

(** [for _, kv := range ... { ... }] over the matches, in order. *)
Fixpoint rangeInsert (realm : string) (usersMap : gmap string (list byte))
  (kvs : list (list string)) : Outcome (gmap string (list byte)) :=
  match kvs with
  | [] => mret usersMap
  | kv :: kvs' =>
      usersMap' ← insertUser realm usersMap kv;
      rangeInsert realm usersMap' kvs'
  end.

(** The map [usersMap] that [main] builds from the flags [-users] and
    [-realm]. *)
Definition buildUsersMap (users realm : string) : Outcome (gmap string (list byte)) :=
  rangeInsert realm ∅ (Regexp.FindAllStringSubmatch usersRE users (-1)).

(** [AuthHandler: func(username, realm string, srcAddr net.Addr) ([]byte, bool)],
    a closure over [usersMap]; the [nil] slice is the empty list. *)
Definition AuthHandler (usersMap : gmap string (list byte))
  (username realm : string) (srcAddr : Addr) : list byte * bool :=
  match usersMap !! username with
  | Some key => (key, true)
  | None => ([], false)
  end.

End Credentials.

(** ** The required flags of [main] *)

(** The check of the flags [-public-ip] and [-users] at the start of
    [main]: when the first is empty the program ends with a fatal error,
    else when the second is empty it ends with another; the result is the
    message of the fatal error, [None] when the program goes on. *)
Definition requiredFlags (publicIP users : string) : option string :=
  if (String.length publicIP =? 0)%nat then Some "'public-ip' is required"
  else if (String.length users =? 0)%nat then Some "'users' is required"
  else None.

(** ** The STUN codec used by the Binding responder *)

Module Stun.

Local Open Scope Z_scope.

Definition magicCookie : Z := 0x2112A442.
Definition attributeHeaderSize : nat := 4.
Definition messageHeaderSize : nat := 20.
Definition TransactionIDSize : nat := 12.
Definition padding : nat := 4.
Definition fingerprintSize : nat := 4.
Definition fingerprintXORValue : Z := 0x5354554e.
Definition familyIPv4 : Z := 0x01.
Definition familyIPv6 : Z := 0x02.
Definition AttrXORMappedAddress : Z := 0x0020.
Definition AttrFingerprint : Z := 0x8028.

(** Conversions [byte(z)], [uint16(z)] and [uint32(z)] keep the low bits. *)
Definition byte_of_Z (z : Z) : byte :=
  default x00 (Byte.of_N (Z.to_N (Z.land z 0xFF))).
Definition uint16 (z : Z) : Z := Z.land z 0xFFFF.
Definition uint32 (z : Z) : Z := Z.land z 0xFFFFFFFF.

Definition byte_xor (a b : byte) : byte :=
  byte_of_Z (Z.lxor (byteZ a) (byteZ b)).

(** [binary.BigEndian]. *)
Definition PutUint16 (v : Z) : list byte :=
  [byte_of_Z (Z.shiftr v 8); byte_of_Z v].
Definition PutUint32 (v : Z) : list byte :=
  [byte_of_Z (Z.shiftr v 24); byte_of_Z (Z.shiftr v 16);
   byte_of_Z (Z.shiftr v 8); byte_of_Z v].
Definition Uint16 (b : list byte) : Z :=
  match b with
  | b0 :: b1 :: _ => Z.lor (byteZ b1) (Z.shiftl (byteZ b0) 8)
  | _ => 0
  end.
Definition Uint32 (b : list byte) : Z :=
  match b with
  | b0 :: b1 :: b2 :: b3 :: _ =>
      Z.lor (Z.lor (Z.lor (byteZ b3) (Z.shiftl (byteZ b2) 8))
               (Z.shiftl (byteZ b1) 16)) (Z.shiftl (byteZ b0) 24)
  | _ => 0
  end.

(** [copy(dst[off:], src)]: the length of [dst] does not change. *)
Definition store (off : nat) (src dst : list byte) : list byte :=
  take off dst ++ take (length dst - off) src ++ drop (off + length src) dst.

(** [safeXORBytes]: [a[i] ^ b[i]] for [i < min(len(a), len(b))]. *)
Definition xorBytes (a b : list byte) : list byte := zip_with byte_xor a b.

(** *** CRC-32 (IEEE), computed bit by bit *)

Definition crcShift (c : Z) : Z :=
  if Z.testbit c 0 then Z.lxor (Z.shiftr c 1) 0xEDB88320 else Z.shiftr c 1.

Definition crcUpdate (c : Z) (b : byte) : Z :=
  Nat.iter 8 crcShift (Z.lxor c (byteZ b)).

(** [crc32.ChecksumIEEE]. *)
Definition ChecksumIEEE (data : list byte) : Z :=
  Z.lxor (fold_left crcUpdate data 0xFFFFFFFF) 0xFFFFFFFF.

(** [FingerprintValue]. *)
Definition FingerprintValue (b : list byte) : Z :=
  Z.lxor (ChecksumIEEE b) fingerprintXORValue.

(** *** Messages *)

Record MessageType : Type := mkMessageType { Method : Z; Class : Z }.

Definition MethodBinding : Z := 0x001.
Definition ClassSuccessResponse : Z := 0x02.
Definition BindingSuccess : MessageType :=
  mkMessageType MethodBinding ClassSuccessResponse.
Definition BindingRequest : MessageType := mkMessageType MethodBinding 0x00.

(** [t.Value()]: the method bits with holes for the two class bits. *)
Definition Value (t : MessageType) : Z :=
  let m := uint16 (Method t) in
  let a := Z.land m 0xf in
  let b := Z.land m 0x70 in
  let d := Z.land m 0xf80 in
  let m := a + Z.shiftl b 1 + Z.shiftl d 2 in
  let c := uint16 (Class t) in
  let c0 := Z.shiftl (Z.land c 0x1) 4 in
  let c1 := Z.shiftl (Z.land c 0x2) 7 in
  uint16 (m + (c0 + c1)).

(** [t.ReadValue(v)], the inverse of [Value]. *)
Definition ReadValue (v : Z) : MessageType :=
  let c0 := Z.land (Z.shiftr v 4) 0x1 in
  let c1 := Z.land (Z.shiftr v 7) 0x2 in
  let a := Z.land v 0xf in
  let b := Z.land (Z.shiftr v 1) 0x70 in
  let d := Z.land (Z.shiftr v 2) 0xf80 in
  mkMessageType (a + b + d) (c0 + c1).

Record RawAttribute : Type := mkRawAttribute {
  attrType : Z;
  attrLength : Z;
  attrValue : list byte
}.

Record Message : Type := mkMessage {
  Typ : MessageType;
  Length : Z;
  TransactionID : list byte;
  Attributes : list RawAttribute;
  Raw : list byte
}.

(** [new(Message)]: every field has its zero value. *)
Definition newMessage : Message :=
  mkMessage (mkMessageType 0 0) 0 (replicate TransactionIDSize x00) [] [].

(** [m.grow(n, resize)]: afterwards [len(m.Raw) >= n], and [= n] when
    [resize] is set. *)
Definition grow (n : nat) (resize : bool) (raw : list byte) : list byte :=
  if (n <=? length raw)%nat then (if resize then take n raw else raw)
  else raw ++ replicate (n - length raw) x00.

Definition setRaw (m : Message) (raw : list byte) : Message :=
  mkMessage (Typ m) (Length m) (TransactionID m) (Attributes m) raw.

Definition WriteType (m : Message) : Message :=
  setRaw m (store 0 (PutUint16 (Value (Typ m))) (grow 2 false (Raw m))).

Definition WriteLength (m : Message) : Message :=
  setRaw m (store 2 (PutUint16 (uint16 (Length m))) (grow 4 false (Raw m))).

Definition WriteTransactionID (m : Message) : Message :=
  setRaw m (store 8 (take TransactionIDSize (TransactionID m)) (Raw m)).

Definition WriteHeader (m : Message) : Message :=
  let m := setRaw m (grow messageHeaderSize false (Raw m)) in
  let m := WriteLength (WriteType m) in
  let m := setRaw m (store 4 (PutUint32 magicCookie) (Raw m)) in
  WriteTransactionID m.

Definition Reset (m : Message) : Message :=
  mkMessage (Typ m) 0 (TransactionID m) [] [].

Definition SetType (t : MessageType) (m : Message) : Message :=
  WriteType (mkMessage t (Length m) (TransactionID m) (Attributes m) (Raw m)).

Definition nearestPaddedValueLength (l : nat) : nat :=
  let n := (padding * (l / padding))%nat in
  if (n <? l)%nat then (n + padding)%nat else n.

(** [m.Add(t, v)]: append the attribute as type, length, value and zero
    padding up to a multiple of four, and write the new length. *)
Definition Add (t : Z) (v : list byte) (m : Message) : Message :=
  let allocSize := (attributeHeaderSize + length v)%nat in
  let first := (messageHeaderSize + Z.to_nat (Length m))%nat in
  let last := (first + allocSize)%nat in
  let raw := take last (grow last true (Raw m)) in
  let len := uint32 (Length m + Z.of_nat allocSize) in
  let attr := mkRawAttribute t (uint16 (Z.of_nat (length v))) v in
  let raw := store first (PutUint16 (attrType attr) ++
                          PutUint16 (attrLength attr) ++ v) raw in
  let bytesToAdd := (nearestPaddedValueLength (length v) - length v)%nat in
  let '(raw, len) :=
    if negb (attrLength attr mod Z.of_nat padding =? 0)%Z
    then (raw ++ replicate bytesToAdd x00, uint32 (len + Z.of_nat bytesToAdd))
    else (raw, len) in
  WriteLength (mkMessage (Typ m) len (TransactionID m)
                         (Attributes m ++ [attr]) raw).

(** The values passed to [stun.Build] by the responder. *)
Inductive Setter : Type :=
| MessageSetter (m : Message)             (* [&stun.Message{...}] *)
| TypeSetter (t : MessageType)            (* a [stun.MessageType] *)
| XORMappedAddress (ip : IP) (port : Z)   (* [&stun.XORMappedAddress{...}] *)
| Fingerprint.                            (* [stun.Fingerprint] *)

(** The 16 bytes every address is XOR-ed with: the magic cookie, then the
    transaction id. *)
Definition xorValue (m : Message) : list byte :=
  store 4 (TransactionID m)
    (store 0 (PutUint32 magicCookie) (replicate IPv6len x00)).

(** [XORMappedAddress.AddTo]. *)
Definition addXORMappedAddress (ip : IP) (port : Z) (m : Message)
  : error + Message :=
  let choice :=
    if (length ip =? IPv6len)%nat then
      match To4 ip with
      | Some p4 => inr (familyIPv4, p4)
      | None => inr (familyIPv6, ip)
      end
    else if negb (length ip =? IPv4len)%nat then inl ErrBadIPLength
    else inr (familyIPv4, ip) in
  match choice with
  | inl err => inl err
  | inr (family, ip) =>
      let value :=
        PutUint16 family ++
        PutUint16 (uint16 (Z.lxor port (Z.shiftr magicCookie 16))) ++
        store 0 (xorBytes ip (xorValue m)) (replicate (length ip) x00) in
      inr (Add AttrXORMappedAddress value m)
  end.

(** [FingerprintAttr.AddTo]: the checksum is taken over the message so
    far, with the length field already counting the attribute to come. *)
Definition addFingerprint (m : Message) : Message :=
  let l := Length m in
  let m' := WriteLength
              (mkMessage (Typ m)
                 (uint32 (l + Z.of_nat (fingerprintSize + attributeHeaderSize)))
                 (TransactionID m) (Attributes m) (Raw m)) in
  let b := PutUint32 (FingerprintValue (Raw m')) in
  Add AttrFingerprint b
    (mkMessage (Typ m') l (TransactionID m') (Attributes m') (Raw m')).

(** [s.AddTo(m)]. *)
Definition AddTo (s : Setter) (m : Message) : error + Message :=
  match s with
  | MessageSetter src =>
      inr (WriteTransactionID
             (mkMessage (Typ m) (Length m) (TransactionID src)
                        (Attributes m) (Raw m)))
  | TypeSetter t => inr (SetType t m)
  | XORMappedAddress ip port => addXORMappedAddress ip port m
  | Fingerprint => inr (addFingerprint m)
  end.

Fixpoint applySetters (setters : list Setter) (m : Message) : error + Message :=
  match setters with
  | [] => inr m
  | s :: rest =>
      match AddTo s m with
      | inl err => inl err
      | inr m' => applySetters rest m'
      end
  end.

(** [stun.Build(setters...)]. *)
Definition Build (setters : list Setter) : error + Message :=
  applySetters setters (WriteHeader (Reset newMessage)).

(** *** Reading a message back *)

(** [m.Get(t)]: the value of the first attribute of type [t]. *)
Definition Get (t : Z) (m : Message) : option (list byte) :=
  attrValue <$> List.find (fun a => (attrType a =? t)%Z) (Attributes m).

(** [XORMappedAddress.GetFrom]: the address carried by the message. *)
Definition getXORMappedAddress (m : Message) : option (IP * Z) :=
  v ← Get AttrXORMappedAddress m;
  let family := Uint16 (take 2 v) in
  if negb (family =? familyIPv6)%Z && negb (family =? familyIPv4)%Z then None
  else
    let ipLen := if (family =? familyIPv6)%Z then IPv6len else IPv4len in
    if (length v <=? 4)%nat then None
    else if (ipLen <? length (drop 4 v))%nat then None
    else
      let port := Z.lxor (Uint16 (take 2 (drop 2 v))) (Z.shiftr magicCookie 16) in
      let ip := store 0 (xorBytes (drop 4 v) (xorValue m)) (replicate ipLen x00) in
      Some (ip, port).

(** [FingerprintAttr.Check]: the message carries a FINGERPRINT whose
    value is the checksum of the bytes before that attribute. *)
Definition checkFingerprint (m : Message) : bool :=
  match Get AttrFingerprint m with
  | None => false
  | Some b =>
      let attrStart :=
        (length (Raw m) - (fingerprintSize + attributeHeaderSize))%nat in
      Uint32 b =? FingerprintValue (take attrStart (Raw m))
  end.

End Stun.

(** ** The Binding responder of the server package *)

(** Modelled from the spec: [Request] of the server package, which is not
    among the sources.  Of the per-request context the handler uses the
    packet connection, here a connection number, the source address, and
    the logger, whose lines go to the trace of the world. *)
Record Request : Type := mkRequest {
  Conn : nat;
  SrcAddr : Addr
}.

(** *** The helpers of the package *)

Module ipnet.

(** Modelled from the spec: [ipnet.AddrIPPort], which is not among the
    sources.  It extracts IP and port from the source address and fails
    when the address cannot be decomposed, which is the case for every
    address that is neither a UDP nor a TCP address. *)
Definition AddrIPPort (a : Addr) : error + (IP * Z) :=
  match a with
  | UDPAddr ip port _ => inr (ip, port)
  | TCPAddr ip port _ => inr (ip, port)
  | OtherAddr _ _ => inl errFailedToCastAddr
  end.

End ipnet.

Module util.

(** Modelled from the spec: [buildMsg], which is not among the sources.
    The response reuses the transaction id of the request and has the given
    type; the further attributes follow in the given order. *)
Definition buildMsg (transactionID : list byte) (msgType : Stun.MessageType)
  (additional : list Stun.Setter) : list Stun.Setter :=
  [Stun.MessageSetter
     (Stun.mkMessage (Stun.Typ Stun.newMessage) 0 transactionID [] []);
   Stun.TypeSetter msgType] ++ additional.

(** Modelled from the spec: [buildAndSend], which is not among the sources.
    The message is assembled and sent to the destination; a failure to
    assemble it or to send it is returned unchanged. *)
Definition buildAndSend (conn : nat) (dst : Addr) (attrs : list Stun.Setter)
  : Exec (option error) :=
  match Stun.Build attrs with
  | inl err => mret (Some err)
  | inr msg => WriteTo conn (Stun.Raw msg) dst
  end.

End util.

Section Server.

(** The helpers that the handler calls are parameters here. *)
Variable AddrIPPort : Addr -> error + (IP * Z).
Variable buildMsg :
  list byte -> Stun.MessageType -> list Stun.Setter -> list Stun.Setter.
Variable buildAndSend : nat -> Addr -> list Stun.Setter -> Exec (option error).

(** [func handleBindingRequest(r Request, m *stun.Message) error]. *)
Definition handleBindingRequest (r : Request) (m : Stun.Message)
  : Exec (option error) :=
  log_Printf ("received BindingRequest from " +:+ Addr_String (SrcAddr r));;
  match AddrIPPort (SrcAddr r) with
  | inl err => mret (Some err)
  | inr (ip, port) =>
      let attrs :=
        buildMsg (Stun.TransactionID m) Stun.BindingSuccess
          [Stun.XORMappedAddress ip port; Stun.Fingerprint] in
      buildAndSend (Conn r) (SrcAddr r) attrs
  end.

End Server.

(** The Binding responder: the handler with the helpers of the package. *)
Definition BindingResponder : Request -> Stun.Message -> Exec (option error) :=
  handleBindingRequest ipnet.AddrIPPort util.buildMsg util.buildAndSend.

(** ** Definitions that follow the words of the specification *)

(** The host component of a textual address: the text before the first
    [':'], and the whole text when there is none. *)
Fixpoint hostPart (s : string) : string :=
  match s with
  | EmptyString => EmptyString
  | String c s' => if Ascii.eqb c ":" then EmptyString else String c (hostPart s')
  end.

(** A string made of word characters only. *)
Fixpoint allWord (s : string) : bool :=
  match s with
  | EmptyString => true
  | String c s' => Regexp.isWord c && allWord s'
  end.

(** A token of word characters, as the pattern requires on both sides of
    the equals sign: one or more word characters. *)
Definition isToken (s : string) : Prop :=
  s <> EmptyString /\ allWord s = true.

(** A string without any word character. *)
Fixpoint noWord (s : string) : bool :=
  match s with
  | EmptyString => true
  | String c s' => negb (Regexp.isWord c) && noWord s'
  end.

Definition startsWithWord (s : string) : bool :=
  match s with
  | String c _ => Regexp.isWord c
  | EmptyString => false
  end.

(** The slice delivered for the pair [username=password]. *)
Definition pairMatch (username password : string) : list string :=
  [username +:+ "=" +:+ password; username; password].

(** The password of the last pair for [username] among matches. *)
Fixpoint lastPassword (username : string) (kvs : list (list string))
  : option string :=
  match kvs with
  | [] => None
  | kv :: kvs' =>
      match lastPassword username kvs' with
      | Some p => Some p
      | None =>
          match kv with
          | [_; u; p] => if String.eqb u username then Some p else None
          | _ => None
          end
      end
  end.

(** The byte [c] cannot take part in any match of [r]. *)
Fixpoint rejects (r : Regexp.Regexp) (c : ascii) : bool :=
  match r with
  | Regexp.Lit a => negb (Ascii.eqb c a)
  | Regexp.PlusClass cls => negb (cls c)
  | Regexp.Cap _ r' => rejects r' c
  | Regexp.Cat r1 r2 => rejects r1 c && rejects r2 c
  end.

(** A delimiter byte: neither a word character nor the equals sign. *)
Definition isDelimiter (c : ascii) : bool :=
  negb (Regexp.isWord c) && negb (Ascii.eqb c "=").

(** The text starts with an equals sign and a word character. *)
Definition pairAhead (s : string) : bool :=
  match s with
  | String a (String b _) => Ascii.eqb a "=" && Regexp.isWord b
  | _ => false
  end.

(** A thread with more text left after it. *)
Definition withRest (more : string) (t : Regexp.Thread) : Regexp.Thread :=
  let '(u, caps, rest) := t in (u, caps, rest +:+ more).

(** The text [username:realm:password] as bytes: a simple instance of the
    key derivation, used where an example needs a concrete one. *)
Definition keyText (username realm password : string) : list byte :=
  list_byte_of_string (username +:+ ":" +:+ realm +:+ ":" +:+ password).

(** What the responder hands to the connection for a request: the bytes of
    the response, or the error that ends the request before any write. *)
Definition bindingResponse (r : Request) (m : Stun.Message) : error + list byte :=
  match ipnet.AddrIPPort (SrcAddr r) with
  | inl err => inl err
  | inr (ip, port) =>
      match Stun.Build (util.buildMsg (Stun.TransactionID m) Stun.BindingSuccess
                          [Stun.XORMappedAddress ip port; Stun.Fingerprint]) with
      | inl err => inl err
      | inr msg => inr (Stun.Raw msg)
      end
  end.

(** The line that the responder logs first. *)
Definition receivedLine (r : Request) : Event :=
  EvLog ("received BindingRequest from " +:+ Addr_String (SrcAddr r)).

(** The result the network gives to the next write. *)
Definition nextWriteResult (w : World) : option error :=
  match net_script w with
  | res :: _ => res
  | [] => None
  end.

(** The layout of a STUN message on the wire: the 20-byte header with the
    message type, the length of what follows the header, the magic cookie
    and the transaction id; then the attributes, each as type, length of
    the value, and value. *)
Definition wireHeader (t : Stun.MessageType) (len : Z) (tid : list byte)
  : list byte :=
  Stun.PutUint16 (Stun.Value t) ++ Stun.PutUint16 (Stun.uint16 len) ++
  Stun.PutUint32 Stun.magicCookie ++ tid.

Definition wireAttribute (t : Z) (v : list byte) : list byte :=
  Stun.PutUint16 t ++ Stun.PutUint16 (Stun.uint16 (Z.of_nat (length v))) ++ v.

(** An IP as the responder encodes it: an IPv4 address, also one given in
    the 16-byte IPv4-mapped form, by its 4 bytes; an IPv6 address by its 16
    bytes. *)
Definition canonicalIP (ip : IP) : IP :=
  match To4 ip with
  | Some p4 => p4
  | None => ip
  end.

(** A message with the given type, transaction id and attributes whose
    buffer is the wire form: the header, with the length of [body] in its
    length field, followed by [body]. *)
Definition assembled (t : Stun.MessageType) (tid : list byte)
  (attrs : list Stun.RawAttribute) (body : list byte) : Stun.Message :=
  Stun.mkMessage t (Z.of_nat (length body)) tid attrs
    (wireHeader t (Z.of_nat (length body)) tid ++ body).

(** The attribute record kept for a value. *)
Definition attributeOf (t : Z) (v : list byte) : Stun.RawAttribute :=
  Stun.mkRawAttribute t (Stun.uint16 (Z.of_nat (length v))) v.

(** The value of the FINGERPRINT attribute of a message with the given
    header fields and attributes [body] before it: the checksum of the
    header, whose length field already counts the attribute, and [body]. *)
Definition fingerprintOf (t : Stun.MessageType) (tid body : list byte) : list byte :=
  Stun.PutUint32
    (Stun.FingerprintValue
       (wireHeader t (Z.of_nat (length body + 8)) tid ++ body)).

(** The address family of an encoded IP. *)
Definition familyOf (q : IP) : Z :=
  if (length q =? IPv6len)%nat then Stun.familyIPv6 else Stun.familyIPv4.

(** The value of the XOR-MAPPED-ADDRESS attribute for an address: family,
    port XOR the high half of the magic cookie, and the IP XOR the magic
    cookie and the transaction id. *)
Definition xorAddressValue (tid : list byte) (ip : IP) (port : Z) : list byte :=
  Stun.PutUint16 (familyOf (canonicalIP ip)) ++
  Stun.PutUint16 (Stun.uint16 (Z.lxor port (Z.shiftr Stun.magicCookie 16))) ++
  Stun.xorBytes (canonicalIP ip)
    (Stun.xorValue (Stun.mkMessage (Stun.mkMessageType 0 0) 0 tid [] [])).

(** The response of the Binding responder to a request with transaction id
    [tid] from the address [(ip, port)]. *)
Definition bindingSuccessFor (tid : list byte) (ip : IP) (port : Z) : Stun.Message :=
  let v := xorAddressValue tid ip port in
  let f := fingerprintOf Stun.BindingSuccess tid
             (wireAttribute Stun.AttrXORMappedAddress v) in
  assembled Stun.BindingSuccess tid
    [attributeOf Stun.AttrXORMappedAddress v; attributeOf Stun.AttrFingerprint f]
    (wireAttribute Stun.AttrXORMappedAddress v ++
     wireAttribute Stun.AttrFingerprint f).

(** The text [s] starts with the byte [c]. *)
Definition startsWith (c : ascii) (s : string) : Prop :=
  exists s', s = String c s'.

(** A 16-byte address that is not IPv4-mapped is an IPv6 address. *)
Definition isIPv6 (ip : IP) : Prop :=
  length ip = IPv6len /\ To4 ip = None.

(** A thread consumes a non-empty prefix of the input. *)
Definition consumes (s : string) (t : Regexp.Thread) : Prop :=
  let '(u, _, rest) := t in s = u +:+ rest /\ u <> EmptyString.

(** All matches of [r] in [s], with the fuel [len(s)+1] that
    [FindAllStringSubmatch] gives the loop for [n = -1]. *)
Definition matchesOf (r : Regexp.Regexp) (s : string) : list (list string) :=
  Regexp.FindAllStringSubmatch r s (-1).

(** The part of the pattern after the first group: [=(\w+)]. *)
Definition tailRE : Regexp.Regexp :=
  Regexp.Cat (Regexp.Lit "=") (Regexp.Cap 2 (Regexp.PlusClass Regexp.isWord)).

(** The threads of the pattern whose first group is [u] and leaves [rest]. *)
Definition continue (u rest : string) : list Regexp.Thread :=
  map (fun '(u2, caps2, rest2) => (u +:+ u2, (1%nat, u) :: caps2, rest2))
      (Regexp.exec tailRE rest).

(** Every byte of the text satisfies [P]. *)
Fixpoint allChars (P : ascii -> bool) (s : string) : bool :=
  match s with
  | EmptyString => true
  | String c s' => P c && allChars P s'
  end.

(** A decimal digit; a byte of a dotted-decimal text. *)
Definition isDigit (c : ascii) : bool :=
  ((48 <=? nat_of_ascii c) && (nat_of_ascii c <=? 57))%nat.

Definition isDottedChar (c : ascii) : bool :=
  isDigit c || Ascii.eqb c ".".

(** The line the permission handler logs for a decision. *)
Definition decisionLine (admitted : bool) (host peer : string) : string :=
  if admitted
  then "Admitting request from client IP " +:+ host +:+ " to peer " +:+ peer
  else "Blocking request from client IP " +:+ host +:+ " to peer " +:+ peer.

(** The configuration string for a list of user names with passwords:
    [user=pass,user=pass,...]. *)
Definition configOf (pairs : list (string * string)) : string :=
  String.concat "," (map (fun '(u, p) => u +:+ "=" +:+ p) pairs).

(** The password of the last pair for [username] in a list of pairs. *)
Fixpoint passwordOf (username : string) (pairs : list (string * string))
  : option string :=
  match pairs with
  | [] => None
  | (u, p) :: pairs' =>
      match passwordOf username pairs' with
      | Some q => Some q
      | None => if String.eqb u username then Some p else None
      end
  end.

(** Addresses and requests used in examples. *)
Definition ipOf (octets : list N) : IP := omap Byte.of_N octets.
Definition emptyWorld : World := mkWorld [] [].
Definition addr2001db8 : IP :=
  ipOf [0x20; 0x01; 0x0d; 0xb8; 0; 0; 0; 0; 0; 0; 0; 0; 0; 0; 0; 1]%N.
Definition unixClient : Request := mkRequest 7 (OtherAddr "unix" "/run/turn.sock").
Definition udpClient : Request :=
  mkRequest 7 (UDPAddr (ipOf [192; 0; 2; 1]%N) 5000 "").
Definition sampleRequest : Stun.Message :=
  Stun.mkMessage Stun.BindingRequest 0 (list_byte_of_string "abcdefghijkl") [] [].
Definition nilClient : Request := mkRequest 7 (UDPAddr [] 5000 "").

(** * Facts about Go strings *)

Section GoStringFacts.

Import GoString.

Lemma HasPrefix_colon (s : string) :
  HasPrefix s ":" = match s with
                    | String c _ => Ascii.eqb ":" c
                    | EmptyString => false
                    end.
Proof.
  destruct s as [|c s]; simpl; [reflexivity|].
  destruct s; simpl; apply andb_true_r.
Qed.

Lemma Index_colon_None (s : string) :
  Index s ":" = None -> hostPart s = s.
Proof.
  induction s as [|c s IH]; [reflexivity|].
  cbn [Index]. rewrite HasPrefix_colon.
  rewrite (Ascii.eqb_sym ":" c). cbn [hostPart].
  destruct (Ascii.eqb c ":"); [discriminate|].
  destruct (Index s ":"); [discriminate|].
  intros _. now rewrite IH.
Qed.

Lemma Index_colon_Some (s : string) (m : nat) :
  Index s ":" = Some m -> take m s = hostPart s.
Proof.
  revert m. induction s as [|c s IH]; intros m.
  - cbn. discriminate.
  - cbn [Index]. rewrite HasPrefix_colon.
    rewrite (Ascii.eqb_sym ":" c). cbn [hostPart].
    destruct (Ascii.eqb c ":").
    + intros [= <-]. reflexivity.
    + destruct (Index s ":") as [k|] eqn:E; [|discriminate].
      intros [= <-]. cbn. now rewrite (IH k).
Qed.

(** The first element of [SplitN(s, ":", 2)] always exists and is the
    host part of [s]. *)
Lemma SplitN_colon_head (s : string) :
  SplitN s ":" 2 !! 0%nat = Some (hostPart s).
Proof.
  unfold SplitN. destruct s as [|c s]; [reflexivity|].
  replace (Nat.min 2 (S (String.length (String c s))) - 1)%nat with 1%nat
    by (cbn [String.length]; lia).
  cbn [splitLoop].
  destruct (Index (String c s) ":") as [m|] eqn:E.
  - rewrite <- (Index_colon_Some _ _ E). reflexivity.
  - rewrite (Index_colon_None _ E). reflexivity.
Qed.

Lemma hostPart_no_colon (s : string) :
  ContainsByte ":" s = false -> hostPart s = s.
Proof.
  induction s as [|c s IH]; [reflexivity|].
  cbn. destruct (Ascii.eqb c ":"); [discriminate|].
  cbn. intros H. now rewrite IH.
Qed.

End GoStringFacts.

(** * Facts about the text of an IP address *)

Section IPTextFacts.

Lemma hexDigit_not_bracket (n : Z) : hexDigit n <> "["%char.
Proof.
  unfold hexDigit.
  destruct (Z.land n 15) as [|p|p]; [discriminate| |discriminate].
  do 4 (try destruct p as [p|p|]); discriminate.
Qed.


Lemma appendHex_head (x : Z) :
  exists n s, appendHex x = String (hexDigit n) s.
Proof.
  unfold appendHex.
  destruct (4096 <=? x)%Z; [cbn; eauto|].
  destruct (256 <=? x)%Z; [cbn; eauto|].
  destruct (16 <=? x)%Z; cbn; eauto.
Qed.

Lemma string_of_uint_head (d : Decimal.uint) :
  exists c s, NilZero.string_of_uint d = String c s /\ c <> "["%char.
Proof.
  destruct d; cbn; eexists _, _; (split; [reflexivity|discriminate]).
Qed.

Lemma string4_not_bracket (ip : list byte) :
  ~ startsWith "[" (string4 ip).
Proof.
  unfold string4, utoa. intros [s' H].
  destruct ip as [|a ip]; [discriminate|].
  destruct (string_of_uint_head (N.to_uint (Byte.to_N a))) as (c & s & E & Hc).
  cbn [map String.concat] in H. rewrite E in H.
  destruct ip; cbn in H; injection H as H _; congruence.
Qed.

Lemma printGroups_not_bracket (fuel i : nat) (g : list Z) zero :
  ~ startsWith "[" (printGroups fuel i g zero).
Proof.
  intros [s' H]. destruct fuel as [|fuel]; [discriminate|].
  cbn [printGroups] in H.
  destruct (8 <=? i)%nat; [discriminate|].
  assert (Hhex : forall pre x rest,
             (pre = "" \/ pre = ":") ->
             pre +:+ appendHex x +:+ rest <> String "[" s').
  { intros pre x rest [->| ->]; destruct (appendHex_head x) as (n & s & ->);
      cbn; intros E; injection E as E _.
    - now apply hexDigit_not_bracket in E.
    - discriminate. }
  destruct zero as [[zs ze]|].
  - destruct (i =? zs)%nat; [discriminate|].
    apply Hhex in H; [assumption|]. destruct (0 <? i)%nat; auto.
  - apply Hhex in H; [assumption|]. destruct (0 <? i)%nat; auto.
Qed.

(** The text of an IP address never starts with an opening bracket. *)
Lemma IP_String_not_bracket (ip : IP) : ~ startsWith "[" (IP_String ip).
Proof.
  unfold IP_String.
  destruct (length ip =? 0)%nat; [intros [s' H]; discriminate|].
  destruct (negb _); [intros [s' H]; discriminate|].
  destruct (To4 ip).
  - apply string4_not_bracket.
  - apply printGroups_not_bracket.
Qed.

End IPTextFacts.

(** * The peer admission policy *)

Section Admission.

(** What one evaluation does: it logs one line and returns the result of
    comparing the host part of the client address with the peer IP. *)
Lemma PermissionHandler_run (clientAddr : Addr) (peerIP : IP) (w : World) :
  exists line,
    PermissionHandler clientAddr peerIP w =
      (Done (String.eqb (hostPart (Addr_String clientAddr)) (IP_String peerIP)),
       mkWorld (trace w ++ [EvLog line]) (net_script w)).
Proof.
  unfold PermissionHandler, at_index.
  rewrite SplitN_colon_head.
  unfold mbind, Exec_bind, lift.
  destruct (String.eqb _ _); cbn; eexists; reflexivity.
Qed.

End Admission.

Section AdmissionClaims.

Lemma decision_eq (clientAddr : Addr) (peerIP : IP) (w : World) :
  decision clientAddr peerIP w =
    Done (String.eqb (hostPart (Addr_String clientAddr)) (IP_String peerIP)).
Proof.
  unfold decision.
  destruct (PermissionHandler_run clientAddr peerIP w) as [line ->].
  reflexivity.
Qed.

Lemma ContainsByte_app (c : ascii) (s t : string) :
  GoString.ContainsByte c (s +:+ t) =
    GoString.ContainsByte c s || GoString.ContainsByte c t.
Proof.
  induction s as [|a s IH]; [reflexivity|].
  change (String a s +:+ t) with (String a (s +:+ t)).
  cbn [GoString.ContainsByte]. rewrite IH. now rewrite orb_assoc.
Qed.

Lemma printGroups_has_colon (fuel : nat) (g : list Z) zero :
  GoString.ContainsByte ":" (printGroups (S (S fuel)) 0 g zero) = true.
Proof.
  cbn [printGroups Nat.leb Nat.ltb].
  assert (Hnext : forall s,
             GoString.ContainsByte ":" (s +:+ printGroups (S fuel) 1 g zero) = true).
  { intros s. rewrite ContainsByte_app. apply orb_true_iff. right.
    cbn [printGroups Nat.leb Nat.ltb].
    destruct zero as [[zs ze]|]; [destruct (1 =? zs)%nat|]; reflexivity. }
  destruct zero as [[zs ze]|]; [destruct (0 =? zs)%nat|].
  - reflexivity.
  - apply (Hnext (appendHex (nth 0 g 0%Z))).
  - apply (Hnext (appendHex (nth 0 g 0%Z))).
Qed.

(** The text of a UDP or TCP address with an IPv6 address is bracketed. *)
Lemma ipPortString_bracketed (ip : IP) (port : Z) (zone : string) :
  isIPv6 ip ->
  exists host, ipPortString ip port zone =
                 "[" +:+ host +:+ "]:" +:+ GoString.Itoa port.
Proof.
  intros [Hlen H4].
  assert (Hcolon : GoString.ContainsByte ":" (ipEmptyString ip) = true).
  { unfold ipEmptyString, IP_String. rewrite Hlen, H4. cbn [Nat.eqb IPv6len].
    cbn [IPv4len Nat.eqb orb negb]. apply printGroups_has_colon. }
  unfold ipPortString, JoinHostPort.
  destruct (negb (String.eqb zone "")).
  - rewrite ContainsByte_app, Hcolon. cbn [orb]. eauto.
  - rewrite Hcolon. eauto.
Qed.

Lemma bracketed_denied (text rest : string) (peerIP : IP) :
  text = "[" +:+ rest ->
  String.eqb (hostPart text) (IP_String peerIP) = false.
Proof.
  intros ->. apply String.eqb_neq. intros H.
  apply (IP_String_not_bracket peerIP). rewrite <- H.
  cbn. eexists. reflexivity.
Qed.

(** C1: for every client address and peer IP the permission handler
    returns true exactly when the host part of the client address text
    (the text before the first colon) is the same string as the text of
    the peer IP, and false otherwise. *)
Theorem C1_admission_iff_host_equals_peer
  (clientAddr : Addr) (peerIP : IP) (w : World) :
  exists b : bool,
    decision clientAddr peerIP w = Done b /\
    (b = true <-> hostPart (Addr_String clientAddr) = IP_String peerIP) /\
    (b = false <-> hostPart (Addr_String clientAddr) <> IP_String peerIP).
Proof.
  rewrite decision_eq. eexists. split; [reflexivity|].
  split; [apply String.eqb_eq | apply String.eqb_neq].
Qed.

(** C6: the handler never panics and never fails, it returns true or
    false for every input; and when the client address text has no colon
    the whole text is compared with the text of the peer IP. *)
Theorem C6_admission_total_and_no_colon
  (clientAddr : Addr) (peerIP : IP) (w : World) :
  (exists (b : bool) (w' : World),
      PermissionHandler clientAddr peerIP w = (Done b, w')) /\
  (GoString.ContainsByte ":" (Addr_String clientAddr) = false ->
   decision clientAddr peerIP w =
     Done (String.eqb (Addr_String clientAddr) (IP_String peerIP))).
Proof.
  split.
  - destruct (PermissionHandler_run clientAddr peerIP w) as [line ->]. eauto.
  - intros H. rewrite decision_eq. now rewrite (hostPart_no_colon _ H).
Qed.

Lemma C6_witness :
  GoString.ContainsByte ":" (Addr_String (OtherAddr "unix" "/run/turn.sock")) = false /\
  decision (OtherAddr "unix" "/run/turn.sock") (ipOf [10; 0; 0; 5]%N) emptyWorld =
    Done false.
Proof.
  split; [reflexivity|].
  exact (proj2 (C6_admission_total_and_no_colon
                  (OtherAddr "unix" "/run/turn.sock") (ipOf [10; 0; 0; 5]%N)
                  emptyWorld) eq_refl).
Defined.

(** C9: a client whose address text is a bracketed IPv6 host and port is
    denied for every peer IP, because the text before the first colon
    starts with the bracket and the text of an IP never does; this is the
    case for every UDP or TCP client with an IPv6 address. *)
Theorem C9_bracketed_ipv6_client_always_denied
  (clientAddr : Addr) (peerIP : IP) (w : World) :
  ((exists host port, Addr_String clientAddr = "[" +:+ host +:+ "]:" +:+ port) \/
   (exists ip port zone,
       isIPv6 ip /\
       (clientAddr = UDPAddr ip port zone \/ clientAddr = TCPAddr ip port zone))) ->
  decision clientAddr peerIP w = Done false.
Proof.
  intros H. rewrite decision_eq. f_equal.
  assert (Hb : exists rest, Addr_String clientAddr = "[" +:+ rest).
  { destruct H as [(host & port & ->)|(ip & port & zone & H6 & Hc)].
    - eauto.
    - destruct (ipPortString_bracketed ip port zone H6) as [host Hs].
      destruct Hc as [-> | ->]; cbn [Addr_String]; rewrite Hs; eauto. }
  destruct Hb as [rest Hb]. now apply (bracketed_denied _ rest).
Qed.

Lemma C9_witness :
  Addr_String (UDPAddr addr2001db8 4000 "") = "[2001:db8::1]:4000" /\
  decision (UDPAddr addr2001db8 4000 "") addr2001db8 emptyWorld = Done false.
Proof.
  split; [reflexivity|].
  apply (C9_bracketed_ipv6_client_always_denied
           (UDPAddr addr2001db8 4000 "") addr2001db8 emptyWorld).
  left. exists "2001:db8::1", "4000". reflexivity.
Defined.

(** The two evaluations listed in the specification. *)
Example admit_own_address :
  decision (UDPAddr (ipOf [10; 0; 0; 5]%N) 4000 "") (ipOf [10; 0; 0; 5]%N)
    emptyWorld = Done true.
Proof. reflexivity. Qed.

Example block_other_address :
  decision (UDPAddr (ipOf [10; 0; 0; 5]%N) 4000 "") (ipOf [10; 0; 0; 9]%N)
    emptyWorld = Done false.
Proof. reflexivity. Qed.

End AdmissionClaims.

(** * Facts about the matcher *)

Section RegexpFacts.

Import Regexp.

Lemma app_String (c : ascii) (s t : string) :
  String c s +:+ t = String c (s +:+ t).
Proof. reflexivity. Qed.

Lemma app_assoc_s (s t v : string) : (s +:+ t) +:+ v = s +:+ (t +:+ v).
Proof.
  induction s as [|c s IH]; [reflexivity|].
  rewrite !app_String. now rewrite IH.
Qed.

Lemma app_empty_r (s : string) : s +:+ "" = s.
Proof.
  induction s as [|c s IH]; [reflexivity|].
  rewrite app_String. now rewrite IH.
Qed.

Lemma app_length_s (s t : string) :
  String.length (s +:+ t) = (String.length s + String.length t)%nat.
Proof.
  induction s as [|c s IH]; [reflexivity|].
  rewrite app_String. cbn [String.length]. now rewrite IH.
Qed.

Lemma runs_sound (cls : ascii -> bool) (s u rest : string) :
  In (u, rest) (runs cls s) -> s = u +:+ rest /\ u <> EmptyString.
Proof.
  revert u rest. induction s as [|c s IH]; intros u rest; [intros []|].
  cbn [runs]. destruct (cls c); [|intros []].
  rewrite in_app_iff, in_map_iff. intros [((u' & rest') & [= <- <-] & Hin)|Hin].
  - destruct (IH _ _ Hin) as [-> _]. split; [reflexivity|discriminate].
  - destruct Hin as [[= <- <-]|[]]. split; [reflexivity|discriminate].
Qed.

Lemma exec_sound (r : Regexp) (s : string) (t : Thread) :
  In t (exec r s) -> consumes s t.
Proof.
  revert s t. induction r as [c|cls|n r IH|r1 IH1 r2 IH2]; intros s t.
  - destruct s as [|a s]; [intros []|]. cbn [exec].
    destruct (Ascii.eqb a c); [|intros []].
    intros [<-|[]]. split; [reflexivity|discriminate].
  - cbn [exec]. rewrite in_map_iff. intros ((u & rest) & <- & Hin).
    now apply runs_sound in Hin.
  - cbn [exec]. rewrite in_map_iff. intros (((u & caps) & rest) & <- & Hin).
    exact (IH _ _ Hin).
  - cbn [exec]. rewrite in_flat_map.
    intros (((u1 & caps1) & rest1) & Hin1 & Hin2).
    rewrite in_map_iff in Hin2.
    destruct Hin2 as (((u2 & caps2) & rest2) & <- & Hin2).
    destruct (IH1 _ _ Hin1) as [-> Hne]. destruct (IH2 _ _ Hin2) as [-> _].
    split; [now rewrite app_assoc_s|].
    destruct u1; [congruence|discriminate].
Qed.

Lemma head_In {A : Type} (l : list A) (x : A) : head l = Some x -> In x l.
Proof. destruct l; [discriminate|]. intros [= ->]. now left. Qed.

(** A match found by [search] leaves strictly less text. *)
Lemma search_shorter (r : Regexp) (s : string) u caps rest :
  search r s = Some (u, caps, rest) ->
  (String.length rest < String.length s)%nat.
Proof.
  induction s as [|c s IH]; cbn [search].
  - destruct (head (exec r "")) as [t|] eqn:E; [|discriminate].
    intros [= ->]. apply head_In, exec_sound in E. destruct E as [E Hne].
    destruct u; [congruence|discriminate].
  - destruct (head (exec r (String c s))) as [t|] eqn:E.
    + intros [= ->]. apply head_In, exec_sound in E. destruct E as [E Hne].
      rewrite E, app_length_s. destruct u; [congruence|cbn; lia].
    + intros H. apply IH in H. cbn [String.length]. lia.
Qed.

(** More fuel than the length of the text changes nothing. *)
Lemma allMatches_fuel (r : Regexp) (n m : nat) (s : string) :
  (String.length s < n)%nat -> (String.length s < m)%nat ->
  allMatches n r s = allMatches m r s.
Proof.
  revert m s. induction n as [|n IH]; intros m s Hn Hm; [lia|].
  destruct m as [|m]; [lia|]. cbn [allMatches].
  destruct (search r s) as [[[u caps] rest]|] eqn:E; [|reflexivity].
  apply search_shorter in E. f_equal. apply IH; lia.
Qed.

Lemma matchesOf_eq (r : Regexp) (s : string) :
  matchesOf r s = allMatches (S (String.length s)) r s.
Proof. reflexivity. Qed.

(** The loop, one round at a time. *)
Lemma matchesOf_step (r : Regexp) (s : string) :
  matchesOf r s =
    match search r s with
    | None => []
    | Some ((_, _, rest) as t) => submatch r t :: matchesOf r rest
    end.
Proof.
  rewrite matchesOf_eq. cbn [allMatches].
  destruct (search r s) as [[[u caps] rest]|] eqn:E; [|reflexivity].
  apply search_shorter in E. f_equal.
  rewrite matchesOf_eq. apply allMatches_fuel; lia.
Qed.

(** *** A byte that the pattern rejects separates the text *)

Lemma runs_sep (cls : ascii -> bool) (x : string) (c : ascii) (b : string) :
  cls c = false ->
  runs cls (x +:+ String c b) =
    map (fun '(u, rest) => (u, rest +:+ String c b)) (runs cls x).
Proof.
  intros Hc. induction x as [|a x IH].
  - change ("" +:+ String c b) with (String c b). cbn [runs map].
    now rewrite Hc.
  - rewrite app_String. cbn [runs]. destruct (cls a); [|reflexivity].
    rewrite IH, map_app, !map_map. cbn [map]. f_equal.
    apply map_ext. now intros [u rest].
Qed.

Lemma exec_nil (r : Regexp) : exec r "" = [].
Proof.
  destruct (exec r "") as [|[[u caps] rest] l] eqn:E; [reflexivity|].
  assert (H : In (u, caps, rest) (exec r "")) by (rewrite E; now left).
  apply exec_sound in H. destruct H as [H Hne].
  destruct u; [congruence|discriminate].
Qed.

Lemma exec_sep (r : Regexp) (x : string) (c : ascii) (b : string) :
  rejects r c = true ->
  exec r (x +:+ String c b) = map (withRest (String c b)) (exec r x).
Proof.
  revert x. induction r as [a|cls|n r IH|r1 IH1 r2 IH2]; intros x Hr.
  - cbn [rejects] in Hr. apply negb_true_iff in Hr.
    destruct x as [|a' x].
    + change ("" +:+ String c b) with (String c b). cbn [exec map].
      now rewrite Hr.
    + rewrite app_String. cbn [exec]. now destruct (Ascii.eqb a' a).
  - cbn [rejects] in Hr. apply negb_true_iff in Hr.
    cbn [exec]. rewrite (runs_sep _ _ _ _ Hr), !map_map.
    apply map_ext. now intros [u rest].
  - cbn [rejects] in Hr. cbn [exec]. rewrite (IH _ Hr), !map_map.
    apply map_ext. now intros [[u caps] rest].
  - cbn [rejects] in Hr. apply andb_true_iff in Hr. destruct Hr as [Hr1 Hr2].
    cbn [exec]. rewrite (IH1 _ Hr1).
    induction (exec r1 x) as [|[[u1 caps1] rest1] l IHl]; [reflexivity|].
    cbn [map flat_map withRest]. rewrite IHl, map_app. f_equal.
    rewrite (IH2 _ Hr2), !map_map.
    apply map_ext. now intros [[u2 caps2] rest2].
Qed.

Lemma search_sep (r : Regexp) (x : string) (c : ascii) (b : string) :
  rejects r c = true ->
  search r (x +:+ String c b) =
    match search r x with
    | Some t => Some (withRest (String c b) t)
    | None => search r b
    end.
Proof.
  intros Hr. induction x as [|a x IH].
  - change ("" +:+ String c b) with (String c b). cbn [search].
    change (String c b) with ("" +:+ String c b) at 1.
    rewrite (exec_sep _ _ _ _ Hr), exec_nil. reflexivity.
  - rewrite app_String. cbn [search]. rewrite <- app_String.
    rewrite (exec_sep _ _ _ _ Hr).
    destruct (exec r (String a x)) as [|t l]; [exact IH | reflexivity].
Qed.

Lemma submatch_withRest (r : Regexp) (more : string) (t : Thread) :
  submatch r (withRest more t) = submatch r t.
Proof. now destruct t as [[u caps] rest]. Qed.

(** The matches of a text with a rejected byte in it are the matches
    before that byte followed by the matches after it. *)
Lemma matchesOf_sep (r : Regexp) (x : string) (c : ascii) (b : string) :
  rejects r c = true ->
  matchesOf r (x +:+ String c b) = matchesOf r x ++ matchesOf r b.
Proof.
  intros Hr. remember (String.length x) as n eqn:Hn.
  revert x Hn. induction n as [n IH] using lt_wf_ind. intros x ->.
  rewrite (matchesOf_step r (x +:+ String c b)), (search_sep _ _ _ _ Hr).
  rewrite (matchesOf_step r x).
  destruct (search r x) as [[[u caps] rest]|] eqn:E.
  - cbn [withRest app]. f_equal.
    apply search_shorter in E. now apply (IH _ E).
  - cbn [app]. now rewrite <- matchesOf_step.
Qed.

End RegexpFacts.

(** * The pattern of the credential index *)

Section UsersPattern.

Import Regexp.

Lemma isWord_not_equals (c : ascii) :
  isWord c = true -> Ascii.eqb c "=" = false.
Proof.
  intros H. destruct (Ascii.eqb_spec c "=") as [->|]; [|reflexivity].
  discriminate H.
Qed.

Lemma exec_usersRE (s : string) :
  exec usersRE s = flat_map (fun '(u, rest) => continue u rest) (runs isWord s).
Proof.
  unfold usersRE. cbn [exec]. fold tailRE.
  induction (runs isWord s) as [|[u rest] l IH]; [reflexivity|].
  cbn [map flat_map]. rewrite IH. f_equal.
Qed.

Lemma exec_tailRE (rest : string) :
  exec tailRE rest =
    match rest with
    | String a r' =>
        if Ascii.eqb a "=" then
          map (fun '(u, rest2) => ("=" +:+ u, [(2, u)], rest2)) (runs isWord r')
        else []
    | EmptyString => []
    end.
Proof.
  unfold tailRE. cbn [exec]. destruct rest as [|a r']; [reflexivity|].
  destruct (Ascii.eqb_spec a "=") as [->|]; [|reflexivity].
  cbn [flat_map]. rewrite app_nil_r, !map_map.
  apply map_ext. now intros [u rest2].
Qed.

Lemma exec_tailRE_word (rest : string) :
  startsWithWord rest = true -> exec tailRE rest = [].
Proof.
  rewrite exec_tailRE. destruct rest as [|a r']; [reflexivity|].
  cbn [startsWithWord]. intros H. now rewrite (isWord_not_equals _ H).
Qed.

Lemma runs_nonword (s : string) : startsWithWord s = false -> runs isWord s = [].
Proof. destruct s as [|c s]; [reflexivity|]. cbn. now intros ->. Qed.

Lemma exec_tailRE_no_pair (rest : string) :
  pairAhead rest = false -> exec tailRE rest = [].
Proof.
  rewrite exec_tailRE. destruct rest as [|a r']; [reflexivity|].
  destruct (Ascii.eqb a "=") eqn:Ea; [|reflexivity].
  destruct r' as [|b r'']; [reflexivity|].
  cbn [pairAhead]. rewrite Ea. cbn [andb]. intros Hb.
  rewrite runs_nonword; [reflexivity|exact Hb].
Qed.

Lemma startsWithWord_app (u rest : string) :
  isToken u -> startsWithWord (u +:+ rest) = true.
Proof.
  intros [Hne Hw]. destruct u as [|c u]; [congruence|].
  cbn in Hw. apply andb_true_iff in Hw. now destruct Hw.
Qed.

Lemma isToken_tail (c : ascii) (u : string) :
  isToken (String c u) -> u <> "" -> isToken u.
Proof.
  intros [_ Hw] Hne. split; [assumption|].
  cbn in Hw. apply andb_true_iff in Hw. now destruct Hw.
Qed.

Lemma isToken_head (c : ascii) (u : string) :
  isToken (String c u) -> isWord c = true.
Proof.
  intros [_ Hw]. cbn in Hw. apply andb_true_iff in Hw. now destruct Hw.
Qed.

(** The longest run comes first. *)
Lemma runs_head (u rest : string) :
  isToken u -> startsWithWord rest = false ->
  head (runs isWord (u +:+ rest)) = Some (u, rest).
Proof.
  intros Hu Hrest. induction u as [|c u IH]; [now destruct Hu|].
  rewrite app_String. cbn [runs]. rewrite (isToken_head _ _ Hu).
  destruct u as [|c' u'].
  - change ("" +:+ rest) with rest. now rewrite (runs_nonword _ Hrest).
  - assert (Hu' : isToken (String c' u')) by (now apply (isToken_tail c)).
    specialize (IH Hu').
    destruct (runs isWord (String c' u' +:+ rest)) as [|[u1 r1] l];
      [discriminate|].
    injection IH as -> ->. reflexivity.
Qed.

Lemma flat_map_cons_runs (B : Type) (K : string -> string -> list B)
  (c : ascii) (l : list (string * string)) :
  flat_map (fun '(u1, rest1) => K u1 rest1)
           (map (fun '(u, rest) => (String c u, rest)) l) =
  flat_map (fun '(u1, rest1) => K (String c u1) rest1) l.
Proof.
  induction l as [|[u1 r1] l IHl]; [reflexivity|].
  cbn [map flat_map]. now rewrite IHl.
Qed.

(** Giving back bytes of the first group never helps: what then follows
    is a word character, not the equals sign. *)
Lemma flat_map_runs (B : Type) (K : string -> string -> list B)
  (u rest : string) :
  (forall u1 rest1, startsWithWord rest1 = true -> K u1 rest1 = []) ->
  isToken u -> startsWithWord rest = false ->
  flat_map (fun '(u1, rest1) => K u1 rest1) (runs isWord (u +:+ rest)) = K u rest.
Proof.
  intros HK Hu Hrest. revert K HK.
  induction u as [|c u IH]; intros K HK; [now destruct Hu|].
  rewrite app_String. cbn [runs]. rewrite (isToken_head _ _ Hu).
  rewrite flat_map_app. cbn [flat_map]. rewrite app_nil_r.
  destruct u as [|c' u'].
  - change ("" +:+ rest) with rest. rewrite (runs_nonword _ Hrest). reflexivity.
  - assert (Hu' : isToken (String c' u')) by (now apply (isToken_tail c)).
    rewrite (HK _ (String c' u' +:+ rest) (startsWithWord_app _ _ Hu')).
    rewrite app_nil_r.
    rewrite flat_map_cons_runs.
    apply (IH Hu' (fun u1 rest1 => K (String c u1) rest1)).
    intros u1 rest1 H. now apply HK.
Qed.

Lemma exec_usersRE_token (u rest : string) :
  isToken u -> startsWithWord rest = false ->
  exec usersRE (u +:+ rest) = continue u rest.
Proof.
  intros Hu Hrest. rewrite exec_usersRE.
  apply (flat_map_runs _ continue); [|assumption..].
  intros u1 rest1 H. unfold continue. now rewrite exec_tailRE_word.
Qed.

Lemma exec_usersRE_nonword (s : string) :
  startsWithWord s = false -> exec usersRE s = [].
Proof. intros H. now rewrite exec_usersRE, runs_nonword. Qed.

(** A complete pair at the start of the text is matched as a whole. *)
Lemma exec_usersRE_pair (u p rest : string) :
  isToken u -> isToken p -> startsWithWord rest = false ->
  head (exec usersRE (u +:+ "=" +:+ p +:+ rest)) =
    Some (u +:+ "=" +:+ p, [(1, u); (2, p)], rest).
Proof.
  intros Hu Hp Hrest. rewrite exec_usersRE_token; [|assumption|reflexivity].
  unfold continue. rewrite exec_tailRE.
  change ("=" +:+ p +:+ rest) with (String "=" (p +:+ rest)).
  cbn [Ascii.eqb Bool.eqb]. rewrite map_map.
  pose proof (runs_head p rest Hp Hrest) as H.
  destruct (runs isWord (p +:+ rest)) as [|[u2 r2] l]; [discriminate|].
  injection H as -> ->. reflexivity.
Qed.

(** A word that is not followed by an equals sign and a word character
    matches nothing. *)
Lemma exec_usersRE_no_pair (u rest : string) :
  isToken u -> startsWithWord rest = false -> pairAhead rest = false ->
  exec usersRE (u +:+ rest) = [].
Proof.
  intros Hu Hrest Hpair. rewrite exec_usersRE_token by assumption.
  unfold continue. now rewrite exec_tailRE_no_pair.
Qed.

Lemma search_head (r : Regexp) (s : string) (t : Thread) :
  head (exec r s) = Some t -> search r s = Some t.
Proof. intros H. destruct s; cbn [search]; now rewrite H. Qed.

Lemma search_nonword (c : ascii) (s : string) :
  isWord c = false -> search usersRE (String c s) = search usersRE s.
Proof.
  intros H. cbn [search]. now rewrite exec_usersRE_nonword.
Qed.

Lemma search_noWord (d s : string) :
  noWord d = true -> search usersRE (d +:+ s) = search usersRE s.
Proof.
  induction d as [|c d IH]; [reflexivity|].
  cbn [noWord]. intros H. apply andb_true_iff in H. destruct H as [Hc Hd].
  apply negb_true_iff in Hc.
  rewrite app_String, (search_nonword _ _ Hc). now apply IH.
Qed.

Lemma search_pair (d u p rest : string) :
  noWord d = true -> isToken u -> isToken p -> startsWithWord rest = false ->
  search usersRE (d +:+ u +:+ "=" +:+ p +:+ rest) =
    Some (u +:+ "=" +:+ p, [(1, u); (2, p)], rest).
Proof.
  intros Hd Hu Hp Hrest. rewrite (search_noWord _ _ Hd).
  now apply search_head, exec_usersRE_pair.
Qed.

Lemma search_no_pair (u rest : string) :
  isToken u -> startsWithWord rest = false -> pairAhead rest = false ->
  search usersRE (u +:+ rest) = search usersRE rest.
Proof.
  intros Hu Hrest Hpair. induction u as [|c u IH]; [now destruct Hu|].
  pose proof (exec_usersRE_no_pair _ _ Hu Hrest Hpair) as E.
  rewrite app_String in *. cbn [search]. rewrite E. cbn [head].
  destruct u as [|c' u']; [reflexivity|].
  apply IH. now apply (isToken_tail c).
Qed.

Lemma submatch_pair (u p rest : string) :
  submatch usersRE (u +:+ "=" +:+ p, [(1, u); (2, p)], rest) = pairMatch u p.
Proof. reflexivity. Qed.

(** A pair is found after any bytes that are not word characters, and the
    scan goes on behind it. *)
Lemma matchesOf_pair (d u p rest : string) :
  noWord d = true -> isToken u -> isToken p -> startsWithWord rest = false ->
  matchesOf usersRE (d +:+ u +:+ "=" +:+ p +:+ rest) =
    pairMatch u p :: matchesOf usersRE rest.
Proof.
  intros Hd Hu Hp Hrest.
  rewrite matchesOf_step, (search_pair _ _ _ _ Hd Hu Hp Hrest).
  now rewrite submatch_pair.
Qed.

Lemma matchesOf_skip_word (u rest : string) :
  isToken u -> startsWithWord rest = false -> pairAhead rest = false ->
  matchesOf usersRE (u +:+ rest) = matchesOf usersRE rest.
Proof.
  intros Hu Hrest Hpair.
  rewrite matchesOf_step, (search_no_pair _ _ Hu Hrest Hpair).
  now rewrite <- matchesOf_step.
Qed.

Lemma matchesOf_noWord (d : string) :
  noWord d = true -> matchesOf usersRE d = [].
Proof.
  intros Hd. rewrite matchesOf_step.
  rewrite <- (app_empty_r d), (search_noWord _ _ Hd). reflexivity.
Qed.

(** *** Every match is a pair of tokens *)

Lemma runs_allWord (s u rest : string) :
  In (u, rest) (runs isWord s) -> allWord u = true.
Proof.
  revert u rest. induction s as [|c s IH]; intros u rest; [intros []|].
  cbn [runs]. destruct (isWord c) eqn:Hc; [|intros []].
  rewrite in_app_iff, in_map_iff. intros [((u' & rest') & [= <- <-] & Hin)|Hin].
  - cbn [allWord]. rewrite Hc. exact (IH _ _ Hin).
  - destruct Hin as [[= <- <-]|[]]. cbn. now rewrite Hc.
Qed.

Lemma runs_token (s u rest : string) :
  In (u, rest) (runs isWord s) -> isToken u /\ s = u +:+ rest.
Proof.
  intros H. destruct (runs_sound _ _ _ _ H) as [-> Hne].
  split; [|reflexivity]. split; [assumption|]. exact (runs_allWord _ _ _ H).
Qed.

Lemma exec_usersRE_shape (s : string) (t : Thread) :
  In t (exec usersRE s) ->
  exists u p rest,
    t = (u +:+ "=" +:+ p, [(1, u); (2, p)], rest) /\
    isToken u /\ isToken p /\ s = u +:+ "=" +:+ p +:+ rest.
Proof.
  rewrite exec_usersRE, in_flat_map. intros ((u & rest1) & Hu & Ht).
  apply runs_token in Hu. destruct Hu as [Hu ->].
  unfold continue in Ht. rewrite exec_tailRE in Ht.
  destruct rest1 as [|a r']; [destruct Ht|].
  destruct (Ascii.eqb_spec a "=") as [->|]; [|destruct Ht].
  rewrite map_map, in_map_iff in Ht. destruct Ht as ((p & rest2) & <- & Hp).
  apply runs_token in Hp. destruct Hp as [Hp ->].
  exists u, p, rest2. repeat split; try apply Hu; try apply Hp.
Qed.

Lemma search_In (r : Regexp) (s : string) (t : Thread) :
  search r s = Some t -> exists pre s', s = pre +:+ s' /\ In t (exec r s').
Proof.
  induction s as [|c s IH]; cbn [search].
  - destruct (head (exec r "")) as [t'|] eqn:E; [|discriminate].
    intros [= ->]. exists "", "". split; [reflexivity|now apply head_In].
  - destruct (head (exec r (String c s))) as [t'|] eqn:E.
    + intros [= ->]. exists "", (String c s).
      split; [reflexivity|now apply head_In].
    + intros H. destruct (IH H) as (pre & s' & -> & Hin).
      exists (String c pre), s'. split; [reflexivity|assumption].
Qed.

Lemma allMatches_In (r : Regexp) (n : nat) (s : string) (kv : list string) :
  In kv (allMatches n r s) ->
  exists pre s' t, s = pre +:+ s' /\ In t (exec r s') /\ kv = submatch r t.
Proof.
  revert s. induction n as [|n IH]; intros s; [intros []|].
  cbn [allMatches].
  destruct (search r s) as [[[u caps] rest]|] eqn:E; [|intros []].
  destruct (search_In _ _ _ E) as (pre & s' & -> & Hin).
  intros [<-|Hkv].
  - exists pre, s', (u, caps, rest). auto.
  - destruct (IH _ Hkv) as (pre' & s'' & t & -> & Hin' & ->).
    apply exec_sound in Hin. destruct Hin as [-> _].
    exists (pre +:+ u +:+ pre'), s'', t. split; [|auto].
    now rewrite !app_assoc_s.
Qed.

(** Every match delivered for the pattern is a pair of two tokens that
    occurs in the text. *)
Lemma matchesOf_shape (s : string) (kv : list string) :
  In kv (matchesOf usersRE s) ->
  exists u p pre post,
    kv = pairMatch u p /\ isToken u /\ isToken p /\
    s = pre +:+ u +:+ "=" +:+ p +:+ post.
Proof.
  intros H. apply allMatches_In in H.
  destruct H as (pre & s' & t & -> & Hin & ->).
  apply exec_usersRE_shape in Hin.
  destruct Hin as (u & p & rest & -> & Hu & Hp & ->).
  exists u, p, pre, rest. auto.
Qed.

End UsersPattern.

(** * The credential index *)

Section CredentialIndex.

Variable GenerateAuthKey : string -> string -> string -> list byte.

Abbreviation matches users := (Regexp.FindAllStringSubmatch usersRE users (-1)).
Abbreviation build := (buildUsersMap GenerateAuthKey).

Lemma insertUser_pair (realm : string) (m : gmap string (list byte))
  (u p : string) :
  insertUser GenerateAuthKey realm m (pairMatch u p) =
    Done (<[u := GenerateAuthKey u realm p]> m).
Proof. reflexivity. Qed.

(** The loop over matches that are pairs ends normally, and the map then
    holds, for every user name, the key of its last pair. *)
Lemma rangeInsert_pairs (realm : string) (kvs : list (list string)) :
  (forall kv, In kv kvs -> exists u p, kv = pairMatch u p) ->
  forall m0 : gmap string (list byte),
  exists m,
    rangeInsert GenerateAuthKey realm m0 kvs = Done m /\
    forall u, m !! u =
                match lastPassword u kvs with
                | Some p => Some (GenerateAuthKey u realm p)
                | None => m0 !! u
                end.
Proof.
  induction kvs as [|kv kvs IH]; intros Hshape m0.
  - exists m0. split; [reflexivity|]. intros u. reflexivity.
  - destruct (Hshape kv (or_introl eq_refl)) as (u0 & p0 & ->).
    destruct (IH (fun kv H => Hshape kv (or_intror H))
                 (<[u0 := GenerateAuthKey u0 realm p0]> m0)) as (m & Hm & Hlook).
    exists m. split.
    + cbn [rangeInsert]. rewrite insertUser_pair. exact Hm.
    + intros u. rewrite Hlook. cbn [lastPassword pairMatch].
      destruct (lastPassword u kvs); [reflexivity|].
      destruct (String.eqb_spec u0 u) as [->|Hne].
      * apply lookup_insert_eq.
      * now apply lookup_insert_ne.
Qed.

Lemma lastPassword_In (u p : string) (kvs : list (list string)) :
  lastPassword u kvs = Some p -> exists whole, In [whole; u; p] kvs.
Proof.
  induction kvs as [|kv kvs IH]; [discriminate|].
  cbn [lastPassword]. destruct (lastPassword u kvs) as [p'|].
  - intros [= ->]. destruct (IH eq_refl) as [whole H]. exists whole. now right.
  - destruct kv as [|whole [|u' [|p' [|]]]]; try discriminate.
    destruct (String.eqb_spec u' u) as [->|]; [|discriminate].
    intros [= ->]. exists whole. now left.
Qed.

Lemma lastPassword_Some (u p : string) (kvs : list (list string)) :
  In (pairMatch u p) kvs -> is_Some (lastPassword u kvs).
Proof.
  induction kvs as [|kv kvs IH]; [intros []|].
  cbn [lastPassword]. intros [->|H].
  - destruct (lastPassword u kvs); [eauto|].
    cbn [pairMatch]. rewrite String.eqb_refl. eauto.
  - destruct (IH H) as [p' ->]. eauto.
Qed.

Lemma lastPassword_None (u : string) (kvs : list (list string)) :
  (forall kv, In kv kvs -> kv !! 1%nat <> Some u) -> lastPassword u kvs = None.
Proof.
  induction kvs as [|kv kvs IH]; [reflexivity|].
  intros H. cbn [lastPassword].
  rewrite IH by (intros kv' Hin; apply H; now right).
  destruct kv as [|whole [|u' [|p' [|]]]]; try reflexivity.
  destruct (String.eqb_spec u' u) as [->|]; [|reflexivity].
  exfalso. now apply (H [whole; u; p'] (or_introl eq_refl)).
Qed.

Lemma lastPassword_last (u p : string) (l1 l2 : list (list string)) :
  (forall kv, In kv l2 -> kv !! 1%nat <> Some u) ->
  lastPassword u (l1 ++ pairMatch u p :: l2) = Some p.
Proof.
  intros H. induction l1 as [|kv l1 IH].
  - cbn [app lastPassword]. rewrite (lastPassword_None _ _ H).
    cbn [pairMatch]. now rewrite String.eqb_refl.
  - cbn [app lastPassword]. now rewrite IH.
Qed.

Lemma matches_pairs (users : string) (kv : list string) :
  In kv (matches users) -> exists u p, kv = pairMatch u p.
Proof.
  intros H. apply matchesOf_shape in H.
  destruct H as (u & p & _ & _ & -> & _). eauto.
Qed.

(** The build never fails, and the map it returns is described by the
    last pair of every user name. *)
Lemma buildUsersMap_lookup (users realm : string) :
  exists m,
    build users realm = Done m /\
    forall u, m !! u =
                (fun p => GenerateAuthKey u realm p) <$>
                  lastPassword u (matches users).
Proof.
  destruct (rangeInsert_pairs realm (matches users) (matches_pairs users) ∅)
    as (m & Hm & Hlook).
  exists m. split; [exact Hm|]. intros u. rewrite Hlook.
  destruct (lastPassword u (matches users)); [reflexivity|].
  apply lookup_empty.
Qed.

Lemma matches_single_pair (u p : string) :
  isToken u -> isToken p -> matches (u +:+ "=" +:+ p) = [pairMatch u p].
Proof.
  intros Hu Hp.
  pose proof (matchesOf_pair "" u p "" eq_refl Hu Hp eq_refl) as H.
  change ("" +:+ u +:+ "=" +:+ p +:+ "") with (u +:+ "=" +:+ p +:+ "") in H.
  rewrite (app_empty_r p) in H. exact H.
Qed.


Lemma matches_word_alone (u : string) : isToken u -> matches u = [].
Proof.
  intros Hu.
  pose proof (matchesOf_skip_word u "" Hu eq_refl eq_refl) as H.
  now rewrite app_empty_r in H.
Qed.

Lemma matches_no_password (u : string) : isToken u -> matches (u +:+ "=") = [].
Proof.
  intros Hu. exact (matchesOf_skip_word u "=" Hu eq_refl eq_refl).
Qed.

Lemma matches_no_username (p : string) : isToken p -> matches ("=" +:+ p) = [].
Proof.
  intros Hp.
  pose proof (matchesOf_step usersRE ("=" +:+ p)) as H.
  change ("=" +:+ p) with (String "=" p) in H at 2.
  rewrite (search_nonword "=" p eq_refl) in H.
  rewrite <- matchesOf_step in H.
  fold (matchesOf usersRE ("=" +:+ p)). rewrite H.
  now apply matches_word_alone.
Qed.

Lemma rejects_delimiter (c : ascii) :
  isDelimiter c = true -> rejects usersRE c = true.
Proof.
  unfold isDelimiter. intros H. apply andb_true_iff in H. destruct H as [Hw He].
  cbn [rejects usersRE]. now rewrite Hw, He.
Qed.

Lemma matches_delimiter (x : string) (c : ascii) (b : string) :
  isDelimiter c = true ->
  matches (x +:+ String c b) = matches x ++ matches b.
Proof.
  intros H. apply (matchesOf_sep usersRE), rejects_delimiter, H.
Qed.

End CredentialIndex.

Section CredentialClaims.

Variable GenerateAuthKey : string -> string -> string -> list byte.

Abbreviation matches users := (Regexp.FindAllStringSubmatch usersRE users (-1)).
Abbreviation build := (buildUsersMap GenerateAuthKey).

(** C3: for every configuration string the build ends normally with a map
    that has an entry exactly for the user names of the pairs matching
    token, equals sign, token, each key being derived from user name, realm
    and the password of such a pair; an entry of a comma-separated list
    that is a pair is matched, and the entries [foo=], [=bar] and [foo]
    match nothing and add nothing. *)
Theorem C3_index_holds_matching_pairs_only (users realm : string) :
  (exists m : gmap string (list byte),
      build users realm = Done m /\
      (forall u p, In (pairMatch u p) (matches users) -> is_Some (m !! u)) /\
      (forall u key, m !! u = Some key ->
         exists p, In (pairMatch u p) (matches users) /\
                   isToken u /\ isToken p /\
                   key = GenerateAuthKey u realm p)) /\
  (forall kv, In kv (matches users) ->
     exists u p, kv = pairMatch u p /\ isToken u /\ isToken p) /\
  (forall x b, matches (x +:+ "," +:+ b) = matches x ++ matches b) /\
  (forall u p, isToken u -> isToken p ->
     matches (u +:+ "=" +:+ p) = [pairMatch u p] /\
     matches (u +:+ "=") = [] /\
     matches ("=" +:+ p) = [] /\
     matches u = []).
Proof.
  split; [|split; [|split]].
  - destruct (buildUsersMap_lookup GenerateAuthKey users realm) as (m & Hm & Hlook).
    exists m. split; [exact Hm|]. split.
    + intros u p Hin. rewrite Hlook.
      destruct (lastPassword_Some _ _ _ Hin) as [p' ->]. cbn. eauto.
    + intros u key. rewrite Hlook.
      destruct (lastPassword u (matches users)) as [p|] eqn:E; [|discriminate].
      cbn. intros [= <-]. exists p.
      destruct (lastPassword_In _ _ _ E) as [whole Hin].
      destruct (matchesOf_shape _ _ Hin) as (u' & p' & _ & _ & Heq & Hu & Hp & _).
      injection Heq as -> -> ->. auto.
  - intros kv Hin.
    destruct (matchesOf_shape _ _ Hin) as (u & p & _ & _ & -> & Hu & Hp & _).
    eauto.
  - intros x b. now apply matches_delimiter.
  - intros u p Hu Hp. split; [|split; [|split]].
    + now apply matches_single_pair.
    + now apply matches_no_password.
    + now apply matches_no_username.
    + now apply matches_word_alone.
Qed.

(** C7: when several matched pairs have the same user name, the index maps
    that name to the key derived from the last of them. *)
Theorem C7_last_pair_wins (users realm u p : string)
  (before after : list (list string)) :
  matches users = before ++ pairMatch u p :: after ->
  (forall kv, In kv after -> kv !! 1%nat <> Some u) ->
  exists m : gmap string (list byte),
    build users realm = Done m /\
    m !! u = Some (GenerateAuthKey u realm p).
Proof.
  intros Hsplit Hlast.
  destruct (buildUsersMap_lookup GenerateAuthKey users realm) as (m & Hm & Hlook).
  exists m. split; [exact Hm|].
  rewrite Hlook, Hsplit, (lastPassword_last _ _ _ _ Hlast). reflexivity.
Qed.

(** C10: the scan does not depend on commas.  Any byte that is neither a
    word character nor the equals sign splits the text into parts that are
    scanned one after the other; a pair is matched after any bytes that are
    not word characters and whatever follows it, also inside a longer entry
    that is not a pair as a whole; a word without a pair behind it is
    skipped; and every pair that is matched is inserted. *)
Theorem C10_pairs_matched_at_any_delimiter (realm : string) :
  (forall x c b, isDelimiter c = true ->
     matches (x +:+ String c b) = matches x ++ matches b) /\
  (forall d u p rest,
     noWord d = true -> isToken u -> isToken p -> startsWithWord rest = false ->
     matches (d +:+ u +:+ "=" +:+ p +:+ rest) = pairMatch u p :: matches rest) /\
  (forall u rest,
     isToken u -> startsWithWord rest = false -> pairAhead rest = false ->
     matches (u +:+ rest) = matches rest) /\
  (forall users u p, In (pairMatch u p) (matches users) ->
     exists (m : gmap string (list byte)) (p' : string),
       build users realm = Done m /\
       In (pairMatch u p') (matches users) /\
       m !! u = Some (GenerateAuthKey u realm p')).
Proof.
  split; [|split; [|split]].
  - intros x c b. apply matches_delimiter.
  - intros d u p rest. apply matchesOf_pair.
  - intros u rest. apply matchesOf_skip_word.
  - intros users u p Hin.
    destruct (buildUsersMap_lookup GenerateAuthKey users realm) as (m & Hm & Hlook).
    destruct (lastPassword_Some _ _ _ Hin) as [p' Hp'].
    destruct (lastPassword_In _ _ _ Hp') as [whole Hin'].
    destruct (matchesOf_shape _ _ Hin') as (u' & p'' & _ & _ & Heq & _).
    exists m, p'. split; [exact Hm|]. split.
    + rewrite Heq in Hin'. injection Heq as _ -> ->. exact Hin'.
    + rewrite Hlook, Hp'. reflexivity.
Qed.

(** C5: the lookup returns a key with [true] exactly when the user name is
    in the map, and then it is the stored key; for a user name that is not
    in the map it returns [false] (with the nil key).  For a map made by
    the build, a key returned with [true] is a derived key, so it is not
    empty when the derivation never gives an empty key. *)
Theorem C5_lookup_found_iff_present
  (usersMap : gmap string (list byte)) (username realm : string) (srcAddr : Addr) :
  (forall key, AuthHandler usersMap username realm srcAddr = (key, true) <->
               usersMap !! username = Some key) /\
  (usersMap !! username = None <->
   snd (AuthHandler usersMap username realm srcAddr) = false) /\
  (usersMap !! username = None ->
   AuthHandler usersMap username realm srcAddr = ([], false)) /\
  (forall users realm0,
     build users realm0 = Done usersMap ->
     (forall u r p, GenerateAuthKey u r p <> []) ->
     forall key, AuthHandler usersMap username realm srcAddr = (key, true) ->
                 key <> []).
Proof.
  unfold AuthHandler. split; [|split; [|split]].
  - intros key. destruct (usersMap !! username) as [k|].
    + split; intros [= ->]; reflexivity.
    + split; discriminate.
  - destruct (usersMap !! username); split; (reflexivity || discriminate).
  - intros ->. reflexivity.
  - intros users realm0 Hbuild Hkey key.
    destruct (buildUsersMap_lookup GenerateAuthKey users realm0) as (m & Hm & Hlook).
    rewrite Hbuild in Hm. injection Hm as <-. rewrite Hlook.
    destruct (lastPassword username (matches users)) as [p|]; cbn; [|discriminate].
    intros [= <-]. apply Hkey.
Qed.

End CredentialClaims.

Lemma C3_witness :
  isToken "foo" /\ isToken "bar" /\
  Regexp.FindAllStringSubmatch usersRE "foo=bar" (-1) = [pairMatch "foo" "bar"] /\
  Regexp.FindAllStringSubmatch usersRE "foo=" (-1) = [] /\
  Regexp.FindAllStringSubmatch usersRE "=bar" (-1) = [] /\
  Regexp.FindAllStringSubmatch usersRE "foo" (-1) = [].
Proof.
  assert (Hfoo : isToken "foo") by (split; [discriminate|reflexivity]).
  assert (Hbar : isToken "bar") by (split; [discriminate|reflexivity]).
  split; [exact Hfoo|]. split; [exact Hbar|].
  destruct (C3_index_holds_matching_pairs_only keyText "foo=bar" "pion.ly")
    as (_ & _ & _ & H).
  destruct (H "foo" "bar" Hfoo Hbar) as (H1 & H2 & H3 & _).
  destruct (H "bar" "foo" Hbar Hfoo) as (_ & _ & _ & H4).
  auto.
Defined.

Lemma C7_witness :
  exists m : gmap string (list byte),
    buildUsersMap keyText "alice=one,bob=x,alice=two" "pion.ly" = Done m /\
    m !! "alice" = Some (keyText "alice" "pion.ly" "two").
Proof.
  apply (C7_last_pair_wins keyText "alice=one,bob=x,alice=two" "pion.ly"
           "alice" "two" [pairMatch "alice" "one"; pairMatch "bob" "x"] []).
  - reflexivity.
  - intros kv [].
Defined.

Lemma C10_witness :
  Regexp.FindAllStringSubmatch usersRE "x y=z!q=r_1 a=b=c" (-1) =
    [pairMatch "y" "z"; pairMatch "q" "r_1"; pairMatch "a" "b"] /\
  Regexp.FindAllStringSubmatch usersRE "--y=z;" (-1) =
    pairMatch "y" "z" :: Regexp.FindAllStringSubmatch usersRE ";" (-1).
Proof.
  split; [reflexivity|].
  destruct (C10_pairs_matched_at_any_delimiter keyText "pion.ly") as (_ & H & _).
  apply (H "--" "y" "z" ";").
  - reflexivity.
  - split; [discriminate|reflexivity].
  - split; [discriminate|reflexivity].
  - reflexivity.
Defined.

Lemma C5_witness :
  AuthHandler (<["alice" := keyText "alice" "pion.ly" "one"]> ∅)
    "alice" "pion.ly" (UDPAddr (ipOf [10; 0; 0; 5]%N) 4000 "") =
    (keyText "alice" "pion.ly" "one", true) /\
  keyText "alice" "pion.ly" "one" <> [].
Proof.
  split; [reflexivity|].
  destruct (C5_lookup_found_iff_present keyText
              (<["alice" := keyText "alice" "pion.ly" "one"]> ∅)
              "alice" "pion.ly" (UDPAddr (ipOf [10; 0; 0; 5]%N) 4000 ""))
    as (_ & _ & _ & H).
  apply (H "alice=one" "pion.ly").
  - reflexivity.
  - intros u r p. unfold keyText. destruct u; discriminate.
  - reflexivity.
Defined.

(** The examples of the specification for the index. *)
Example lookup_known_user :
  (fun m => AuthHandler m "alice" "pion.ly" (OtherAddr "udp" "")) <$>
    match buildUsersMap keyText "alice=one,bob=two" "pion.ly" with
    | Done m => Some m
    | Panic _ => None
    end = Some (keyText "alice" "pion.ly" "one", true).
Proof. reflexivity. Qed.

Example lookup_unknown_user :
  (fun m => AuthHandler m "nonexistent" "pion.ly" (OtherAddr "udp" "")) <$>
    match buildUsersMap keyText "alice=one,bob=two" "pion.ly" with
    | Done m => Some m
    | Panic _ => None
    end = Some ([], false).
Proof. reflexivity. Qed.

Example malformed_entries_dropped :
  buildUsersMap keyText "foo=,=bar,foo,u=p" "pion.ly" =
    Done (<["u" := keyText "u" "pion.ly" "p"]> ∅).
Proof. reflexivity. Qed.

(** * The Binding responder *)

Section Responder.

Lemma new_events_app (w : World) (evs : list Event) (script : list (option error)) :
  new_events w (mkWorld (trace w ++ evs) script) = evs.
Proof. unfold new_events. cbn [trace]. apply drop_app_length. Qed.

(** One run of the handler: the log line, then either the error, or the
    write of the response with the result of the network. *)
Lemma BindingResponder_run (r : Request) (m : Stun.Message) (w : World) :
  BindingResponder r m w =
    match bindingResponse r m with
    | inl err =>
        (Done (Some err), mkWorld (trace w ++ [receivedLine r]) (net_script w))
    | inr raw =>
        (Done (nextWriteResult w),
         mkWorld (trace w ++ [receivedLine r;
                              EvWriteTo (Conn r) (SrcAddr r) raw (nextWriteResult w)])
                 (tail (net_script w)))
    end.
Proof.
  unfold BindingResponder, handleBindingRequest, bindingResponse.
  unfold mbind, Exec_bind, log_Printf, emit. cbn [fst snd].
  destruct (ipnet.AddrIPPort (SrcAddr r)) as [err|[ip port]]; [reflexivity|].
  unfold util.buildAndSend.
  destruct (Stun.Build _) as [err|msg]; [reflexivity|].
  unfold WriteTo, nextWriteResult. cbn [trace net_script].
  now rewrite <- app_assoc.
Qed.

(** C4: when the source address of a Binding request cannot be decomposed,
    the handler returns the extraction error and writes nothing to the
    connection; this holds whatever the steps that build and send the
    response would do, so they are not reached. *)
Theorem C4_extraction_error_returned_nothing_sent
  (AddrIPPort : Addr -> error + (IP * Z))
  (buildMsg : list byte -> Stun.MessageType -> list Stun.Setter -> list Stun.Setter)
  (buildAndSend : nat -> Addr -> list Stun.Setter -> Exec (option error))
  (r : Request) (m : Stun.Message) (w : World) (err : error) :
  AddrIPPort (SrcAddr r) = inl err ->
  handleBindingRequest AddrIPPort buildMsg buildAndSend r m w =
    (Done (Some err), mkWorld (trace w ++ [receivedLine r]) (net_script w)) /\
  writes (new_events w
            (snd (handleBindingRequest AddrIPPort buildMsg buildAndSend r m w)))
    = [].
Proof.
  intros Herr.
  assert (Hrun : handleBindingRequest AddrIPPort buildMsg buildAndSend r m w =
                   (Done (Some err),
                    mkWorld (trace w ++ [receivedLine r]) (net_script w))).
  { unfold handleBindingRequest, mbind, Exec_bind, log_Printf, emit.
    now rewrite Herr. }
  split; [exact Hrun|].
  rewrite Hrun. cbn [snd]. now rewrite new_events_app.
Qed.

Lemma C4_witness :
  ipnet.AddrIPPort (SrcAddr unixClient) = inl errFailedToCastAddr /\
  fst (BindingResponder unixClient sampleRequest emptyWorld) =
    Done (Some errFailedToCastAddr) /\
  writes (new_events emptyWorld
            (snd (BindingResponder unixClient sampleRequest emptyWorld))) = [].
Proof.
  destruct (C4_extraction_error_returned_nothing_sent
              ipnet.AddrIPPort util.buildMsg util.buildAndSend unixClient sampleRequest emptyWorld
              errFailedToCastAddr eq_refl) as [Hrun Hw].
  split; [reflexivity|]. split; [|exact Hw].
  unfold BindingResponder. now rewrite Hrun.
Defined.

(** C8: the decision of the permission handler and the message of the
    Binding responder depend on the inputs only.  In any two worlds the
    same inputs give the same decision and the same log line, and the same
    datagram handed to the connection; a second evaluation right after the
    first gives the same again; only the result of the write is the
    network's, so with the same result the whole outcome is the same. *)
Theorem C8_same_inputs_same_outcome :
  (forall clientAddr peerIP w1 w2,
      decision clientAddr peerIP w1 = decision clientAddr peerIP w2 /\
      new_events w1 (snd (PermissionHandler clientAddr peerIP w1)) =
        new_events w2 (snd (PermissionHandler clientAddr peerIP w2))) /\
  (forall clientAddr peerIP w,
      decision clientAddr peerIP (snd (PermissionHandler clientAddr peerIP w)) =
        decision clientAddr peerIP w) /\
  (forall r m w1 w2,
      writes (new_events w1 (snd (BindingResponder r m w1))) =
        writes (new_events w2 (snd (BindingResponder r m w2)))) /\
  (forall r m w,
      writes (new_events (snd (BindingResponder r m w))
                (snd (BindingResponder r m (snd (BindingResponder r m w))))) =
        writes (new_events w (snd (BindingResponder r m w)))) /\
  (forall r m w1 w2,
      nextWriteResult w1 = nextWriteResult w2 ->
      fst (BindingResponder r m w1) = fst (BindingResponder r m w2) /\
      new_events w1 (snd (BindingResponder r m w1)) =
        new_events w2 (snd (BindingResponder r m w2))).
Proof.
  assert (Hwrites : forall r m w,
             writes (new_events w (snd (BindingResponder r m w))) =
               match bindingResponse r m with
               | inl _ => []
               | inr raw => [(Conn r, SrcAddr r, raw)]
               end).
  { intros r m w. rewrite BindingResponder_run.
    destruct (bindingResponse r m); cbn [snd]; now rewrite new_events_app. }
  split; [|split; [|split; [|split]]].
  - intros c p w1 w2. split; [now rewrite !decision_eq|].
    destruct (PermissionHandler_run c p w1) as [l1 H1].
    destruct (PermissionHandler_run c p w2) as [l2 H2].
    assert (l1 = l2) as <-.
    { revert H1 H2. unfold PermissionHandler, at_index.
      rewrite SplitN_colon_head. unfold mbind, Exec_bind, lift, log_Printf, emit.
      destruct (String.eqb _ _); cbn; intros [= H1] [= H2];
        apply app_inv_head in H1, H2; congruence. }
    rewrite H1, H2. cbn [snd]. now rewrite !new_events_app.
  - intros c p w. now rewrite !decision_eq.
  - intros r m w1 w2. now rewrite !Hwrites.
  - intros r m w. now rewrite !Hwrites.
  - intros r m w1 w2 Hnext. rewrite !BindingResponder_run.
    destruct (bindingResponse r m); cbn [fst snd]; rewrite !new_events_app.
    + now split.
    + rewrite Hnext. now split.
Qed.

Lemma C8_witness :
  fst (BindingResponder unixClient sampleRequest emptyWorld) =
    fst (BindingResponder unixClient sampleRequest
           (mkWorld [EvLog "earlier"] [])).
Proof.
  destruct C8_same_inputs_same_outcome as (_ & _ & _ & _ & H).
  apply (H unixClient sampleRequest emptyWorld (mkWorld [EvLog "earlier"] [])).
  reflexivity.
Defined.

End Responder.

(** * Facts about bytes and big-endian numbers *)

Section ByteFacts.

Import Stun.
Local Open Scope Z_scope.

Lemma byteZ_range (b : byte) : 0 <= byteZ b < 256.
Proof.
  unfold byteZ. pose proof (Byte.to_N_bounded b). lia.
Qed.

Lemma land_ones_small (z n : Z) :
  0 <= n -> 0 <= z < 2 ^ n -> Z.land z (Z.ones n) = z.
Proof.
  intros Hn Hz. rewrite Z.land_ones by assumption. now apply Z.mod_small.
Qed.

Lemma land_ones_range (z n : Z) : 0 <= n -> 0 <= Z.land z (Z.ones n) < 2 ^ n.
Proof.
  intros Hn. rewrite Z.land_ones by assumption.
  apply Z.mod_pos_bound. now apply Z.pow_pos_nonneg.
Qed.

Lemma byteZ_byte_of_Z (z : Z) : byteZ (byte_of_Z z) = Z.land z (Z.ones 8).
Proof.
  unfold byte_of_Z, byteZ. change 0xFF with (Z.ones 8).
  pose proof (land_ones_range z 8 ltac:(lia)) as Hr.
  destruct (Byte.of_N (Z.to_N (Z.land z (Z.ones 8)))) as [b|] eqn:E.
  - apply Byte.to_of_N in E. change (default x00 (Some b)) with b.
    rewrite E. lia.
  - apply Byte.of_N_None_iff in E. change (2 ^ 8) with 256 in Hr. lia.
Qed.

Lemma byte_of_Z_byteZ (b : byte) : byte_of_Z (byteZ b) = b.
Proof.
  unfold byte_of_Z. change 0xFF with (Z.ones 8).
  rewrite (land_ones_small _ 8) by (pose proof (byteZ_range b); lia).
  unfold byteZ. rewrite N2Z.id, Byte.of_to_N. reflexivity.
Qed.

Lemma lxor_range (n a b : Z) :
  0 <= n -> 0 <= a < 2 ^ n -> 0 <= b < 2 ^ n -> 0 <= Z.lxor a b < 2 ^ n.
Proof.
  intros Hn Ha Hb. split; [apply Z.lxor_nonneg; lia|].
  destruct (Z.eq_dec (Z.lxor a b) 0) as [->|Hne];
    [now apply Z.pow_pos_nonneg|].
  assert (0 < Z.lxor a b) by (pose proof (proj2 (Z.lxor_nonneg a b)); lia).
  apply Z.log2_lt_pow2; [assumption|].
  pose proof (Z.log2_lxor a b ltac:(lia) ltac:(lia)) as Hl.
  assert (Hlog : forall x, 0 <= x < 2 ^ n -> x <> 0 -> Z.log2 x < n).
  { intros x Hx Hx0. apply Z.log2_lt_pow2; lia. }
  destruct (Z.eq_dec a 0) as [->|Ha0]; destruct (Z.eq_dec b 0) as [->|Hb0].
  - now rewrite Z.lxor_0_l in Hne.
  - rewrite Z.lxor_0_l. now apply Hlog.
  - rewrite Z.lxor_0_r. now apply Hlog.
  - pose proof (Hlog a Ha Ha0). pose proof (Hlog b Hb Hb0). lia.
Qed.

Lemma byte_xor_involutive (a k : byte) : byte_xor (byte_xor a k) k = a.
Proof.
  unfold byte_xor. rewrite byteZ_byte_of_Z.
  rewrite (land_ones_small _ 8);
    [|lia|apply lxor_range; [lia|apply byteZ_range..]].
  rewrite Z.lxor_assoc, Z.lxor_nilpotent, Z.lxor_0_r.
  apply byte_of_Z_byteZ.
Qed.

(** The bits of one byte of a number, put back in its place. *)
Lemma testbit_byte_at (v j n : Z) :
  0 <= j -> 0 <= n ->
  Z.testbit (Z.shiftl (byteZ (byte_of_Z (Z.shiftr v j))) j) n =
    Z.testbit v n && (j <=? n) && (n <? j + 8).
Proof.
  intros Hj Hn. rewrite Z.shiftl_spec, byteZ_byte_of_Z, Z.land_spec by assumption.
  rewrite Z.testbit_ones by lia.
  destruct (Z.leb_spec j n).
  - rewrite Z.shiftr_spec by lia. replace (n - j + j) with n by lia.
    destruct (Z.leb_spec 0 (n - j)); [|lia].
    destruct (Z.ltb_spec (n - j) 8), (Z.ltb_spec n (j + 8)); try lia;
      now rewrite ?andb_true_r, ?andb_false_r.
  - destruct (Z.leb_spec 0 (n - j)); [lia|].
    now rewrite !andb_false_r.
Qed.

Lemma testbit_byte_low (v n : Z) :
  0 <= n ->
  Z.testbit (byteZ (byte_of_Z v)) n = Z.testbit v n && (n <? 8).
Proof.
  intros Hn. rewrite byteZ_byte_of_Z, Z.land_spec, Z.testbit_ones by lia.
  destruct (Z.leb_spec 0 n); [|lia]. reflexivity.
Qed.

Lemma Uint16_PutUint16 (v : Z) : 0 <= v < 2 ^ 16 -> Uint16 (PutUint16 v) = v.
Proof.
  intros Hv. rewrite <- (land_ones_small v 16 ltac:(lia) Hv) at 2.
  unfold Uint16, PutUint16. apply Z.bits_inj'. intros n Hn.
  rewrite Z.lor_spec, Z.land_spec, Z.testbit_ones by lia.
  rewrite (testbit_byte_at v 8 n), testbit_byte_low by lia.
  destruct (Z.testbit v n); cbn [andb]; [|reflexivity].
  destruct (Z.leb_spec 0 n), (Z.ltb_spec n 8), (Z.leb_spec 8 n),
    (Z.ltb_spec n (8 + 8)), (Z.ltb_spec n 16); cbn; lia.
Qed.

Lemma Uint32_PutUint32 (v : Z) : 0 <= v < 2 ^ 32 -> Uint32 (PutUint32 v) = v.
Proof.
  intros Hv. rewrite <- (land_ones_small v 32 ltac:(lia) Hv) at 2.
  unfold Uint32, PutUint32. apply Z.bits_inj'. intros n Hn.
  rewrite !Z.lor_spec, Z.land_spec, Z.testbit_ones by lia.
  rewrite (testbit_byte_at v 8 n), (testbit_byte_at v 16 n),
    (testbit_byte_at v 24 n), testbit_byte_low by lia.
  destruct (Z.testbit v n); cbn [andb]; [|reflexivity].
  destruct (Z.leb_spec 0 n), (Z.ltb_spec n 8), (Z.leb_spec 8 n),
    (Z.ltb_spec n (8 + 8)), (Z.leb_spec 16 n), (Z.ltb_spec n (16 + 8)),
    (Z.leb_spec 24 n), (Z.ltb_spec n (24 + 8)), (Z.ltb_spec n 32); cbn; lia.
Qed.

(** The checksum is a 32-bit number. *)
Lemma crcShift_range (c : Z) : 0 <= c < 2 ^ 32 -> 0 <= crcShift c < 2 ^ 32.
Proof.
  intros Hc. unfold crcShift.
  assert (Hs : 0 <= Z.shiftr c 1 < 2 ^ 32).
  { rewrite Z.shiftr_div_pow2 by lia. change (2 ^ 1) with 2.
    split; [apply Z.div_pos; lia|]. apply Z.div_lt_upper_bound; lia. }
  destruct (Z.testbit c 0); [|exact Hs].
  apply lxor_range; [lia|exact Hs|]. cbn. lia.
Qed.

Lemma crcUpdate_range (c : Z) (b : byte) :
  0 <= c < 2 ^ 32 -> 0 <= crcUpdate c b < 2 ^ 32.
Proof.
  intros Hc. unfold crcUpdate.
  assert (H0 : 0 <= Z.lxor c (byteZ b) < 2 ^ 32).
  { apply lxor_range; [lia|exact Hc|]. pose proof (byteZ_range b). lia. }
  generalize dependent (Z.lxor c (byteZ b)). intros z Hz.
  cbn [Nat.iter]. do 8 apply crcShift_range. exact Hz.
Qed.

Lemma FingerprintValue_range (data : list byte) :
  0 <= FingerprintValue data < 2 ^ 32.
Proof.
  unfold FingerprintValue, ChecksumIEEE.
  assert (H : forall c, 0 <= c < 2 ^ 32 ->
                        0 <= fold_left crcUpdate data c < 2 ^ 32).
  { induction data as [|b data IH]; intros c Hc; [exact Hc|].
    cbn [fold_left]. apply IH. now apply crcUpdate_range. }
  apply lxor_range; [lia| |unfold fingerprintXORValue; lia].
  apply lxor_range; [lia| |lia].
  apply H. lia.
Qed.

End ByteFacts.

(** * Facts about building a message *)

Section StunFacts.

Import Stun.

Lemma length_store (off : nat) (src dst : list byte) :
  length (store off src dst) = length dst.
Proof.
  unfold store. rewrite !length_app, !length_take, length_drop. lia.
Qed.

(** Writing over a part of a buffer replaces exactly that part. *)
Lemma store_exact (pre old suf src : list byte) :
  length old = length src ->
  store (length pre) src (pre ++ old ++ suf) = pre ++ src ++ suf.
Proof.
  intros Hlen. unfold store.
  rewrite take_app_length. f_equal.
  rewrite take_ge by (rewrite !length_app; lia). f_equal.
  rewrite drop_app_add. rewrite <- Hlen. apply drop_app_length.
Qed.

Lemma uint16_small (z : Z) : (0 <= z < 2 ^ 16)%Z -> uint16 z = z.
Proof. intros H. unfold uint16. now apply (land_ones_small z 16). Qed.

Lemma uint32_small (z : Z) : (0 <= z < 2 ^ 32)%Z -> uint32 z = z.
Proof. intros H. unfold uint32. now apply (land_ones_small z 32). Qed.

Lemma length_PutUint16 (v : Z) : length (PutUint16 v) = 2%nat.
Proof. reflexivity. Qed.

Lemma length_wireHeader (t : MessageType) (len : Z) (tid : list byte) :
  length (wireHeader t len tid) = (8 + length tid)%nat.
Proof. reflexivity. Qed.

Lemma grow_enough (n : nat) (raw : list byte) :
  (n <= length raw)%nat -> grow n false raw = raw.
Proof.
  intros H. unfold grow. now rewrite (proj2 (Nat.leb_le _ _) H).
Qed.


Lemma grow_extend (k : nat) (raw : list byte) :
  grow (length raw + S k) true raw = raw ++ replicate (S k) x00.
Proof.
  unfold grow. rewrite (proj2 (Nat.leb_gt _ _)) by lia.
  f_equal. f_equal. lia.
Qed.

Lemma store_type (t t0 : MessageType) (len : Z) (tid body : list byte) :
  store 0 (PutUint16 (Value t)) (wireHeader t0 len tid ++ body) =
    wireHeader t len tid ++ body.
Proof.
  unfold wireHeader. rewrite <- !app_assoc.
  exact (store_exact [] (PutUint16 (Value t0)) _ (PutUint16 (Value t)) eq_refl).
Qed.

Lemma store_length (t : MessageType) (len len0 : Z) (tid body : list byte) :
  store 2 (PutUint16 (uint16 len)) (wireHeader t len0 tid ++ body) =
    wireHeader t len tid ++ body.
Proof.
  unfold wireHeader. rewrite <- !app_assoc.
  exact (store_exact (PutUint16 (Value t)) (PutUint16 (uint16 len0)) _
           (PutUint16 (uint16 len)) eq_refl).
Qed.

Lemma store_transactionID (t : MessageType) (len : Z) (tid tid0 body : list byte) :
  length tid0 = length tid ->
  store 8 tid (wireHeader t len tid0 ++ body) = wireHeader t len tid ++ body.
Proof.
  intros Hlen. unfold wireHeader. rewrite <- !app_assoc.
  pose proof (store_exact
                (PutUint16 (Value t) ++ PutUint16 (uint16 len) ++
                 PutUint32 magicCookie) tid0 body tid Hlen) as H.
  rewrite <- !app_assoc in H. exact H.
Qed.

Lemma length_assembled_raw (t : MessageType) (len : Z) (tid body : list byte) :
  length tid = TransactionIDSize ->
  length (wireHeader t len tid ++ body) = (messageHeaderSize + length body)%nat.
Proof.
  intros H. rewrite length_app, length_wireHeader, H. reflexivity.
Qed.

(** [new(Message)] with its header written. *)
Lemma WriteHeader_new :
  WriteHeader (Reset newMessage) =
    assembled (mkMessageType 0 0) (replicate TransactionIDSize x00) [] [].
Proof. reflexivity. Qed.

(** The message setter copies the transaction id into the header. *)
Lemma AddTo_MessageSetter (src : Message) (t : MessageType)
  (tid0 : list byte) (attrs : list RawAttribute) (body : list byte) :
  length tid0 = TransactionIDSize ->
  length (TransactionID src) = TransactionIDSize ->
  AddTo (MessageSetter src) (assembled t tid0 attrs body) =
    inr (assembled t (TransactionID src) attrs body).
Proof.
  intros H0 H. cbn [AddTo]. unfold WriteTransactionID, setRaw, assembled.
  cbn [Typ Length TransactionID Attributes Raw].
  rewrite take_ge by lia.
  now rewrite store_transactionID by congruence.
Qed.

(** The type setter writes the type into the header. *)
Lemma AddTo_TypeSetter (t t0 : MessageType)
  (tid : list byte) (attrs : list RawAttribute) (body : list byte) :
  AddTo (TypeSetter t) (assembled t0 tid attrs body) =
    inr (assembled t tid attrs body).
Proof.
  cbn [AddTo]. unfold SetType, WriteType, setRaw, assembled.
  cbn [Typ Length TransactionID Attributes Raw].
  rewrite grow_enough by (rewrite length_app, length_wireHeader; lia).
  now rewrite store_type.
Qed.

Lemma length_wireAttribute (t : Z) (v : list byte) :
  length (wireAttribute t v) = (attributeHeaderSize + length v)%nat.
Proof. reflexivity. Qed.

(** Adding an attribute whose value needs no padding appends its wire
    form and writes the new length; the length field of the header may
    hold any value before. *)
Lemma Add_laidOut (ty : Z) (v : list byte) (t : MessageType) (len0 : Z)
  (tid : list byte) (attrs : list RawAttribute) (body : list byte) :
  length tid = TransactionIDSize ->
  (length v mod 4 = 0)%nat ->
  (Z.of_nat (length body + 4 + length v) < 65536)%Z ->
  Add ty v (mkMessage t (Z.of_nat (length body)) tid attrs
              (wireHeader t len0 tid ++ body)) =
    assembled t tid (attrs ++ [attributeOf ty v]) (body ++ wireAttribute ty v).
Proof.
  intros Htid Hpad Hsmall.
  assert (Hv : uint16 (Z.of_nat (length v)) = Z.of_nat (length v)).
  { apply uint16_small. change (2 ^ 16)%Z with 65536%Z. lia. }
  unfold Add.
  cbn [Typ Length TransactionID Attributes Raw attrType attrLength attrValue].
  rewrite Nat2Z.id.
  rewrite <- (length_assembled_raw t len0 tid body Htid).
  set (raw0 := wireHeader t len0 tid ++ body).
  change (attributeHeaderSize + length v)%nat with (S (3 + length v)).
  rewrite grow_extend.
  rewrite take_ge by (rewrite length_app, length_replicate; lia).
  rewrite Hv.
  assert (Hmod : (Z.of_nat (length v) mod Z.of_nat padding =? 0)%Z = true).
  { apply Z.eqb_eq. rewrite <- Nat2Z.inj_mod. unfold padding. lia. }
  rewrite Hmod. cbn [negb].
  pose proof (store_exact raw0 (replicate (S (3 + length v)) x00) []
                (PutUint16 ty ++ PutUint16 (Z.of_nat (length v)) ++ v)) as Hst.
  rewrite !app_nil_r in Hst. rewrite Hst by (rewrite length_replicate; reflexivity).
  clear Hst. unfold WriteLength, setRaw.
  cbn [Typ Length TransactionID Attributes Raw].
  rewrite grow_enough
    by (unfold raw0; rewrite !length_app, length_wireHeader; lia).
  unfold raw0. rewrite <- app_assoc, store_length.
  assert (Hlen : uint32 (Z.of_nat (length body) + Z.of_nat (S (3 + length v)))
                 = Z.of_nat (length (body ++ wireAttribute ty v))).
  { rewrite length_app, length_wireAttribute. unfold attributeHeaderSize.
    rewrite uint32_small; [lia|].
    change (2 ^ 32)%Z with 4294967296%Z. lia. }
  rewrite Hlen. unfold assembled, attributeOf, wireAttribute.
  now rewrite Hv.
Qed.

Lemma Add_assembled (ty : Z) (v : list byte) (t : MessageType)
  (tid : list byte) (attrs : list RawAttribute) (body : list byte) :
  length tid = TransactionIDSize ->
  (length v mod 4 = 0)%nat ->
  (Z.of_nat (length body + 4 + length v) < 65536)%Z ->
  Add ty v (assembled t tid attrs body) =
    assembled t tid (attrs ++ [attributeOf ty v]) (body ++ wireAttribute ty v).
Proof. apply Add_laidOut. Qed.

(** The fingerprint setter appends the FINGERPRINT attribute. *)
Lemma addFingerprint_assembled (t : MessageType)
  (tid : list byte) (attrs : list RawAttribute) (body : list byte) :
  length tid = TransactionIDSize ->
  (Z.of_nat (length body + 8) < 65536)%Z ->
  addFingerprint (assembled t tid attrs body) =
    assembled t tid
      (attrs ++ [attributeOf AttrFingerprint (fingerprintOf t tid body)])
      (body ++ wireAttribute AttrFingerprint (fingerprintOf t tid body)).
Proof.
  intros Htid Hsmall.
  set (result := assembled t tid (attrs ++ _) _).
  unfold addFingerprint, assembled.
  cbn [Typ Length TransactionID Attributes Raw].
  unfold WriteLength, setRaw.
  cbn [Typ Length TransactionID Attributes Raw].
  rewrite grow_enough by (rewrite length_app, length_wireHeader; lia).
  rewrite store_length.
  change (Z.of_nat (fingerprintSize + attributeHeaderSize)) with 8%Z.
  assert (Hlen : uint32 (Z.of_nat (length body) + 8) =
                 Z.of_nat (length body + 8)).
  { rewrite uint32_small; [lia|]. change (2 ^ 32)%Z with 4294967296%Z. lia. }
  rewrite Hlen. fold (fingerprintOf t tid body). unfold result.
  apply Add_laidOut; [assumption|reflexivity|].
  change (length (fingerprintOf t tid body)) with 4%nat. lia.
Qed.

(** *** The XOR-MAPPED-ADDRESS attribute *)

Lemma To4_length (ip p4 : IP) : To4 ip = Some p4 -> length p4 = IPv4len.
Proof.
  unfold To4. destruct (length ip =? IPv4len)%nat eqn:E4.
  - intros [= <-]. now apply Nat.eqb_eq.
  - destruct (_ && _ && _ && _) eqn:E; [|discriminate].
    intros [= <-]. rewrite !andb_true_iff in E. destruct E as [[[E _] _] _].
    apply Nat.eqb_eq in E. rewrite length_take, length_drop, E. reflexivity.
Qed.

Lemma canonicalIP_cases (ip : IP) :
  length ip = IPv4len \/ length ip = IPv6len ->
  (length (canonicalIP ip) = IPv4len /\ familyOf (canonicalIP ip) = familyIPv4) \/
  (length (canonicalIP ip) = IPv6len /\ familyOf (canonicalIP ip) = familyIPv6 /\
   To4 ip = None).
Proof.
  intros Hlen. unfold canonicalIP. destruct (To4 ip) as [p4|] eqn:E.
  - left. pose proof (To4_length _ _ E) as H. split; [exact H|].
    unfold familyOf. now rewrite H.
  - destruct Hlen as [H|H].
    + unfold To4 in E. now rewrite H in E.
    + right. split; [exact H|]. split; [|reflexivity].
      unfold familyOf. now rewrite H.
Qed.

Lemma length_xorValue (m : Message) : length (xorValue m) = IPv6len.
Proof. unfold xorValue. now rewrite !length_store, length_replicate. Qed.

Lemma length_xorBytes (q xv : list byte) :
  (length q <= length xv)%nat -> length (xorBytes q xv) = length q.
Proof. intros H. unfold xorBytes. rewrite length_zip_with. lia. Qed.

Lemma store_whole (src : list byte) :
  store 0 src (replicate (length src) x00) = src.
Proof.
  pose proof (store_exact [] (replicate (length src) x00) [] src) as H.
  rewrite !app_nil_r in H. apply H. apply length_replicate.
Qed.


Lemma xorBytes_involutive (q xv : list byte) :
  (length q <= length xv)%nat -> xorBytes (xorBytes q xv) xv = q.
Proof.
  unfold xorBytes. revert xv. induction q as [|a q IH]; intros xv H.
  - now destruct xv.
  - destruct xv as [|k xv]; [cbn in H; lia|].
    cbn [zip_with]. rewrite byte_xor_involutive. f_equal.
    apply IH. cbn in H. lia.
Qed.

Lemma length_xorAddressValue (tid : list byte) (ip : IP) (port : Z) :
  length ip = IPv4len \/ length ip = IPv6len ->
  length (xorAddressValue tid ip port) = (4 + length (canonicalIP ip))%nat /\
  (length (canonicalIP ip) = 4 \/ length (canonicalIP ip) = 16)%nat.
Proof.
  intros Hlen. unfold xorAddressValue.
  rewrite !length_app, !length_PutUint16, length_xorBytes.
  - split; [lia|]. destruct (canonicalIP_cases ip Hlen) as [[H _]|[H _]]; auto.
  - rewrite length_xorValue.
    destruct (canonicalIP_cases ip Hlen) as [[H _]|[H _]]; rewrite H;
      unfold IPv4len, IPv6len; lia.
Qed.

(** The address setter adds the attribute with the value above. *)
Lemma addXORMappedAddress_eq (ip : IP) (port : Z) (m : Message) :
  length ip = IPv4len \/ length ip = IPv6len ->
  addXORMappedAddress ip port m =
    inr (Add AttrXORMappedAddress (xorAddressValue (TransactionID m) ip port) m).
Proof.
  intros Hlen. unfold addXORMappedAddress, xorAddressValue.
  change (xorValue (mkMessage (mkMessageType 0 0) 0 (TransactionID m) [] []))
    with (xorValue m).
  assert (Hst : forall q, (length q <= 16)%nat ->
            store 0 (xorBytes q (xorValue m)) (replicate (length q) x00) =
              xorBytes q (xorValue m)).
  { intros q Hq.
    rewrite <- (length_xorBytes q (xorValue m)) at 1
      by (rewrite length_xorValue; exact Hq).
    apply store_whole. }
  destruct (canonicalIP_cases ip Hlen) as [[Hc Hf]|(Hc & Hf & H4)];
    rewrite Hf; unfold canonicalIP in *.
  - destruct (To4 ip) as [p4|] eqn:E.
    + destruct (length ip =? IPv6len)%nat eqn:E6.
      * rewrite Hst by (rewrite Hc; unfold IPv4len; lia). reflexivity.
      * unfold To4 in E. destruct (length ip =? IPv4len)%nat eqn:E4.
        -- injection E as <-. cbn [negb].
           rewrite Hst by (rewrite Hc; unfold IPv4len; lia). reflexivity.
        -- destruct Hlen as [H|H]; apply Nat.eqb_eq in H; congruence.
    + unfold To4 in E. apply Nat.eqb_eq in Hc. now rewrite Hc in E.
  - rewrite H4 in *. rewrite (proj2 (Nat.eqb_eq _ _) Hc).
    rewrite Hst by (rewrite Hc; unfold IPv6len; lia). reflexivity.
Qed.

Lemma applySetters_cons (s : Setter) (rest : list Setter) (m m' : Message) :
  AddTo s m = inr m' -> applySetters (s :: rest) m = applySetters rest m'.
Proof. intros H. cbn [applySetters]. now rewrite H. Qed.

(** What [stun.Build] returns for the setters of the Binding responder. *)
Lemma Build_bindingSuccess (tid : list byte) (ip : IP) (port : Z) :
  length tid = TransactionIDSize ->
  length ip = IPv4len \/ length ip = IPv6len ->
  Build (util.buildMsg tid BindingSuccess [XORMappedAddress ip port; Fingerprint]) =
    inr (bindingSuccessFor tid ip port).
Proof.
  intros Htid Hlen. unfold Build, util.buildMsg. cbn [app].
  destruct (length_xorAddressValue tid ip port Hlen) as [Hv Hq].
  rewrite WriteHeader_new.
  rewrite (applySetters_cons _ _ _ _
             (AddTo_MessageSetter (mkMessage (Typ newMessage) 0 tid [] []) _ _ _ _
                (length_replicate _ _) Htid)).
  cbn [TransactionID].
  rewrite (applySetters_cons _ _ _ _ (AddTo_TypeSetter BindingSuccess _ _ _ _)).
  assert (Hx : AddTo (XORMappedAddress ip port) (assembled BindingSuccess tid [] []) =
               inr (assembled BindingSuccess tid
                      [attributeOf AttrXORMappedAddress (xorAddressValue tid ip port)]
                      (wireAttribute AttrXORMappedAddress
                         (xorAddressValue tid ip port)))).
  { cbn [AddTo]. rewrite (addXORMappedAddress_eq _ _ _ Hlen). f_equal.
    change (TransactionID (assembled BindingSuccess tid [] [])) with tid.
    apply (Add_assembled _ _ _ _ [] []); [assumption| |].
    - rewrite Hv. destruct Hq as [-> | ->]; reflexivity.
    - cbn [length]. rewrite Hv. destruct Hq as [-> | ->]; lia. }
  rewrite (applySetters_cons _ _ _ _ Hx).
  cbn [applySetters AddTo].
  rewrite addFingerprint_assembled; [reflexivity|assumption|].
  rewrite length_wireAttribute, Hv. unfold attributeHeaderSize.
  destruct Hq as [-> | ->]; lia.
Qed.

(** *** Reading the response back *)

Lemma lxor_twice (p c : Z) : Z.lxor (Z.lxor p c) c = p.
Proof. now rewrite Z.lxor_assoc, Z.lxor_nilpotent, Z.lxor_0_r. Qed.

Lemma xor_port_range (port : Z) :
  (0 <= port < 65536)%Z ->
  (0 <= Z.lxor port (Z.shiftr magicCookie 16) < 2 ^ 16)%Z.
Proof.
  intros H. apply lxor_range; [lia| |].
  - change (2 ^ 16)%Z with 65536%Z. lia.
  - change (Z.shiftr magicCookie 16) with 8466%Z.
    change (2 ^ 16)%Z with 65536%Z. lia.
Qed.

(** The XOR-MAPPED-ADDRESS attribute of the response decodes to the
    address it was made from. *)
Lemma getXORMappedAddress_response (tid : list byte) (ip : IP) (port : Z) :
  length ip = IPv4len \/ length ip = IPv6len ->
  (0 <= port < 65536)%Z ->
  getXORMappedAddress (bindingSuccessFor tid ip port) =
    Some (canonicalIP ip, port).
Proof.
  intros Hlen Hport.
  destruct (length_xorAddressValue tid ip port Hlen) as [Hv Hq].
  pose proof (xor_port_range port Hport) as Hxp.
  unfold getXORMappedAddress, Get, bindingSuccessFor, assembled.
  cbn [Attributes find attributeOf attrType attrValue].
  rewrite Z.eqb_refl. cbn [fmap option_fmap option_map mbind option_bind].
  set (v := xorAddressValue tid ip port) in *.
  set (m := mkMessage _ _ _ _ _).
  change (attrValue (attributeOf AttrXORMappedAddress v)) with v.
  assert (Hfam : take 2 v = PutUint16 (familyOf (canonicalIP ip))) by reflexivity.
  assert (Hprt : take 2 (drop 2 v) =
                 PutUint16 (uint16 (Z.lxor port (Z.shiftr magicCookie 16))))
    by reflexivity.
  assert (Hip : drop 4 v = xorBytes (canonicalIP ip) (xorValue m)) by reflexivity.
  rewrite Hfam, Hprt, Hip, (uint16_small _ Hxp), (Uint16_PutUint16 _ Hxp).
  rewrite lxor_twice.
  assert (Hxl : length (xorBytes (canonicalIP ip) (xorValue m)) =
                length (canonicalIP ip)).
  { apply length_xorBytes. rewrite length_xorValue.
    destruct Hq as [-> | ->]; unfold IPv6len; lia. }
  assert (Hback : xorBytes (xorBytes (canonicalIP ip) (xorValue m)) (xorValue m) =
                  canonicalIP ip).
  { apply xorBytes_involutive. rewrite length_xorValue.
    destruct Hq as [-> | ->]; unfold IPv6len; lia. }
  rewrite Hxl, Hback.
  assert (Hgt : (length v <=? 4)%nat = false).
  { apply Nat.leb_gt. clear m Hfam Hprt Hip Hxl Hback. lia. }
  rewrite Hgt.
  destruct (canonicalIP_cases ip Hlen) as [[Hc Hf]|(Hc & Hf & _)]; rewrite Hf;
    rewrite Uint16_PutUint16 by (unfold familyIPv4, familyIPv6; lia);
    cbn [Z.eqb Pos.eqb negb andb familyIPv4 familyIPv6];
    rewrite Hc, Nat.ltb_irrefl; rewrite <- Hc, store_whole; reflexivity.
Qed.

(** The FINGERPRINT attribute of the response is the last attribute and
    holds the checksum of all the bytes before it. *)
Lemma checkFingerprint_response (tid : list byte) (ip : IP) (port : Z) :
  length tid = TransactionIDSize ->
  checkFingerprint (bindingSuccessFor tid ip port) = true /\
  take (length (Raw (bindingSuccessFor tid ip port)) - 8)
       (Raw (bindingSuccessFor tid ip port)) =
    wireHeader BindingSuccess
      (Z.of_nat (length (Raw (bindingSuccessFor tid ip port)) - 20)) tid ++
    wireAttribute AttrXORMappedAddress (xorAddressValue tid ip port).
Proof.
  intros Htid.
  set (v := xorAddressValue tid ip port).
  set (f := fingerprintOf BindingSuccess tid (wireAttribute AttrXORMappedAddress v)).
  assert (Hraw : Raw (bindingSuccessFor tid ip port) =
                 (wireHeader BindingSuccess
                    (Z.of_nat (length (wireAttribute AttrXORMappedAddress v) + 8))
                    tid ++ wireAttribute AttrXORMappedAddress v) ++
                 wireAttribute AttrFingerprint f).
  { unfold bindingSuccessFor, assembled. cbn [Raw]. fold v. fold f.
    rewrite length_app, app_assoc. reflexivity. }
  assert (Hlen : (length (Raw (bindingSuccessFor tid ip port)) - 8)%nat =
                 length (wireHeader BindingSuccess
                    (Z.of_nat (length (wireAttribute AttrXORMappedAddress v) + 8))
                    tid ++ wireAttribute AttrXORMappedAddress v)).
  { rewrite Hraw, (length_app _ (wireAttribute AttrFingerprint f)).
    change (length (wireAttribute AttrFingerprint f)) with 8%nat. lia. }
  assert (Hbody : (length (Raw (bindingSuccessFor tid ip port)) - 20)%nat =
                  (length (wireAttribute AttrXORMappedAddress v) + 8)%nat).
  { rewrite Hraw, !length_app, length_wireHeader, Htid.
    change (length (wireAttribute AttrFingerprint f)) with 8%nat.
    unfold TransactionIDSize. lia. }
  assert (Htake : take (length (Raw (bindingSuccessFor tid ip port)) - 8)
                       (Raw (bindingSuccessFor tid ip port)) =
                  wireHeader BindingSuccess
                    (Z.of_nat (length (wireAttribute AttrXORMappedAddress v) + 8))
                    tid ++ wireAttribute AttrXORMappedAddress v).
  { rewrite Hlen, Hraw. apply take_app_length. }
  split.
  - unfold checkFingerprint, Get.
    change (fingerprintSize + attributeHeaderSize)%nat with 8%nat.
    rewrite Htake.
    unfold bindingSuccessFor, assembled.
    cbn [Attributes find attributeOf attrType attrValue fmap option_fmap option_map].
    change (AttrXORMappedAddress =? AttrFingerprint)%Z with false.
    rewrite Z.eqb_refl. fold v. fold f.
    apply Z.eqb_eq. unfold f, fingerprintOf.
    apply Uint32_PutUint32, FingerprintValue_range.
  - rewrite Htake, Hbody. reflexivity.
Qed.

End StunFacts.

(** * The response to a Binding request *)

Section BindingResponse.

Import Stun.

Lemma bindingResponse_ok (r : Request) (m : Message) (ip : IP) (port : Z) :
  ipnet.AddrIPPort (SrcAddr r) = inr (ip, port) ->
  length ip = IPv4len \/ length ip = IPv6len ->
  length (TransactionID m) = TransactionIDSize ->
  bindingResponse r m = inr (Raw (bindingSuccessFor (TransactionID m) ip port)).
Proof.
  intros Haddr Hlen Htid. unfold bindingResponse. rewrite Haddr.
  now rewrite (Build_bindingSuccess _ _ _ Htid Hlen).
Qed.

(** C2: for a Binding request with transaction id T from a source address
    that decomposes into an IP of 4 or 16 bytes and a 16-bit port, the
    responder builds a message and hands it to the connection for the
    source address.  The message has transaction id T and type Binding
    Success Response, its attributes are an XOR-MAPPED-ADDRESS that decodes
    to that IP and port, and last a FINGERPRINT whose value is the checksum
    of all bytes of the message before it. *)
Theorem C2_binding_success_response
  (r : Request) (m : Message) (w : World) (ip : IP) (port : Z) :
  ipnet.AddrIPPort (SrcAddr r) = inr (ip, port) ->
  length ip = IPv4len \/ length ip = IPv6len ->
  (0 <= port < 65536)%Z ->
  length (TransactionID m) = TransactionIDSize ->
  exists (resp : Message) (xa fp : RawAttribute),
    Build (util.buildMsg (TransactionID m) BindingSuccess
             [XORMappedAddress ip port; Fingerprint]) = inr resp /\
    BindingResponder r m w =
      (Done (nextWriteResult w),
       mkWorld (trace w ++ [receivedLine r;
                            EvWriteTo (Conn r) (SrcAddr r) (Raw resp)
                              (nextWriteResult w)])
               (tail (net_script w))) /\
    writes (new_events w (snd (BindingResponder r m w))) =
      [(Conn r, SrcAddr r, Raw resp)] /\
    TransactionID resp = TransactionID m /\
    take TransactionIDSize (drop 8 (Raw resp)) = TransactionID m /\
    Typ resp = BindingSuccess /\
    ReadValue (Uint16 (take 2 (Raw resp))) = BindingSuccess /\
    Attributes resp = [xa; fp] /\
    attrType xa = AttrXORMappedAddress /\
    getXORMappedAddress resp = Some (canonicalIP ip, port) /\
    attrType fp = AttrFingerprint /\
    last (Attributes resp) = Some fp /\
    attrValue fp =
      PutUint32 (FingerprintValue (take (length (Raw resp) - 8) (Raw resp))) /\
    checkFingerprint resp = true /\
    Raw resp =
      wireHeader BindingSuccess (Z.of_nat (length (Raw resp) - 20))
        (TransactionID m) ++
      wireAttribute AttrXORMappedAddress (attrValue xa) ++
      wireAttribute AttrFingerprint (attrValue fp).
Proof.
  intros Haddr Hlen Hport Htid.
  set (tid := TransactionID m) in *.
  set (v := xorAddressValue tid ip port).
  set (f := fingerprintOf BindingSuccess tid (wireAttribute AttrXORMappedAddress v)).
  exists (bindingSuccessFor tid ip port),
         (attributeOf AttrXORMappedAddress v), (attributeOf AttrFingerprint f).
  destruct (checkFingerprint_response tid ip port Htid) as [Hcheck Htake].
  assert (Hrun := BindingResponder_run r m w).
  rewrite (bindingResponse_ok r m ip port Haddr Hlen Htid) in Hrun. fold tid in Hrun.
  assert (Hbody : (length (Raw (bindingSuccessFor tid ip port)) - 20)%nat =
                  length (wireAttribute AttrXORMappedAddress v ++
                          wireAttribute AttrFingerprint f)).
  { unfold bindingSuccessFor, assembled. cbn [Raw]. fold v. fold f.
    rewrite (length_app (wireHeader _ _ _)), length_wireHeader, Htid.
    unfold TransactionIDSize. lia. }
  repeat split; try reflexivity.
  - now apply Build_bindingSuccess.
  - exact Hrun.
  - rewrite Hrun. cbn [snd]. now rewrite new_events_app.
  - change (drop 8 (Raw (bindingSuccessFor tid ip port)))
      with (tid ++ wireAttribute AttrXORMappedAddress v ++
            wireAttribute AttrFingerprint f).
    now apply take_app_length'.
  - now apply getXORMappedAddress_response.
  - cbn [attributeOf attrValue]. rewrite Htake. unfold f, fingerprintOf.
    do 3 f_equal. fold v.
    replace (length (Raw (bindingSuccessFor tid ip port)) - 20)%nat
      with (length (wireAttribute AttrXORMappedAddress v) + 8)%nat; [reflexivity|].
    rewrite Hbody, length_app. reflexivity.
  - exact Hcheck.
  - rewrite Hbody. reflexivity.
Qed.

Lemma C2_witness :
  exists resp : Message,
    writes (new_events emptyWorld
              (snd (BindingResponder udpClient sampleRequest emptyWorld))) =
      [(7%nat, SrcAddr udpClient, Raw resp)] /\
    TransactionID resp = TransactionID sampleRequest /\
    getXORMappedAddress resp = Some (ipOf [192; 0; 2; 1]%N, 5000%Z) /\
    checkFingerprint resp = true.
Proof.
  destruct (C2_binding_success_response udpClient sampleRequest emptyWorld
              (ipOf [192; 0; 2; 1]%N) 5000)
    as (resp & xa & fp & _ & _ & Hw & Htid & _ & _ & _ & _ & _ & Hget &
        _ & _ & _ & Hfp & _).
  - reflexivity.
  - left. reflexivity.
  - lia.
  - reflexivity.
  - exists resp. auto.
Defined.

(** The response to the request of the specification's example, byte by
    byte in hexadecimal: header with type 0101, length 0014, magic cookie
    and transaction id; XOR-MAPPED-ADDRESS 0020; FINGERPRINT 8028. *)
Example binding_response_bytes :
  bindingResponse udpClient sampleRequest =
    inr (Raw (bindingSuccessFor (TransactionID sampleRequest)
                (ipOf [192; 0; 2; 1]%N) 5000)) /\
  hexString (Raw (bindingSuccessFor (TransactionID sampleRequest)
                    (ipOf [192; 0; 2; 1]%N) 5000)) =
    ("0101" +:+ "0014" +:+ "2112a442" +:+ "6162636465666768696a6b6c" +:+
     "0020" +:+ "0008" +:+ "0001" +:+ "329a" +:+ "e112a643" +:+
     "8028" +:+ "0004" +:+ "6d34a7bb")%string.
Proof. split; vm_compute; reflexivity. Qed.

(** The check value of CRC-32. *)
Example crc32_check_value :
  ChecksumIEEE (list_byte_of_string "123456789") = 0xCBF43926%Z.
Proof. vm_compute. reflexivity. Qed.

(** A client seen under an IPv4-mapped address gets its IPv4 address. *)
Example binding_response_mapped :
  getXORMappedAddress
    (bindingSuccessFor (TransactionID sampleRequest)
       (ipOf [0; 0; 0; 0; 0; 0; 0; 0; 0; 0; 255; 255; 192; 0; 2; 1]%N) 5000) =
    Some (ipOf [192; 0; 2; 1]%N, 5000%Z).
Proof. vm_compute. reflexivity. Qed.

End BindingResponse.

(** * Further properties of the permission handler *)

Section AdmissionMore.

(** Each evaluation logs one line, which names the decision, the host part
    of the client address and the peer; it writes nothing to a connection
    and leaves the rest of the world as it is. *)
Theorem PermissionHandler_logs_decision
  (clientAddr : Addr) (peerIP : IP) (w : World) :
  PermissionHandler clientAddr peerIP w =
    (Done (String.eqb (hostPart (Addr_String clientAddr)) (IP_String peerIP)),
     mkWorld
       (trace w ++
        [EvLog (decisionLine
                  (String.eqb (hostPart (Addr_String clientAddr)) (IP_String peerIP))
                  (hostPart (Addr_String clientAddr)) (IP_String peerIP))])
       (net_script w)) /\
  writes (new_events w (snd (PermissionHandler clientAddr peerIP w))) = [].
Proof.
  assert (Hrun : PermissionHandler clientAddr peerIP w =
    (Done (String.eqb (hostPart (Addr_String clientAddr)) (IP_String peerIP)),
     mkWorld
       (trace w ++
        [EvLog (decisionLine
                  (String.eqb (hostPart (Addr_String clientAddr)) (IP_String peerIP))
                  (hostPart (Addr_String clientAddr)) (IP_String peerIP))])
       (net_script w))).
  { unfold PermissionHandler, at_index. rewrite SplitN_colon_head.
    unfold mbind, Exec_bind, lift, log_Printf, emit, decisionLine.
    destruct (String.eqb _ _); reflexivity. }
  split; [exact Hrun|]. rewrite Hrun. cbn [snd]. now rewrite new_events_app.
Qed.

Lemma hostPart_app_colon (host rest : string) :
  GoString.ContainsByte ":" host = true ->
  hostPart (host +:+ rest) = hostPart host.
Proof.
  induction host as [|c host IH]; [discriminate|].
  change (String c host +:+ rest) with (String c (host +:+ rest)).
  cbn [hostPart GoString.ContainsByte].
  destruct (Ascii.eqb c ":"); [reflexivity|].
  cbn [orb]. intros H. now rewrite IH.
Qed.

Lemma hostPart_app_no_colon (host rest : string) :
  GoString.ContainsByte ":" host = false ->
  hostPart (host +:+ String ":" rest) = host.
Proof.
  induction host as [|c host IH]; [reflexivity|].
  change (String c host +:+ String ":" rest)
    with (String c (host +:+ String ":" rest)).
  cbn [hostPart GoString.ContainsByte].
  destruct (Ascii.eqb c ":"); [discriminate|].
  cbn [orb]. intros H. now rewrite IH.
Qed.

(** The host part of [JoinHostPort(host, port)] does not depend on the
    port. *)
Lemma hostPart_JoinHostPort (host port : string) :
  hostPart (JoinHostPort host port) =
    if GoString.ContainsByte ":" host
    then String "[" (hostPart host)
    else host.
Proof.
  unfold JoinHostPort. destruct (GoString.ContainsByte ":" host) eqn:E.
  - change ("[" +:+ host +:+ "]:" +:+ port)
      with (String "[" (host +:+ "]:" +:+ port)).
    cbn [hostPart]. change (Ascii.eqb "[" ":") with false. cbn iota.
    now rewrite hostPart_app_colon.
  - now apply hostPart_app_no_colon.
Qed.

(** The decision for a UDP or TCP client does not depend on its port, nor
    on whether it is a UDP or a TCP address. *)
Theorem decision_ignores_port_and_transport
  (ip : IP) (port port' : Z) (zone : string) (peerIP : IP) (w w' : World) :
  decision (UDPAddr ip port zone) peerIP w =
    decision (UDPAddr ip port' zone) peerIP w' /\
  decision (TCPAddr ip port zone) peerIP w =
    decision (UDPAddr ip port' zone) peerIP w'.
Proof.
  rewrite !decision_eq. cbn [Addr_String]. unfold ipPortString.
  destruct (negb (String.eqb zone "")); rewrite !hostPart_JoinHostPort; split;
    reflexivity.
Qed.

End AdmissionMore.

(** * The text of IPv4 addresses *)

Section DottedText.

Lemma allChars_app (P : ascii -> bool) (s t : string) :
  allChars P (s +:+ t) = allChars P s && allChars P t.
Proof.
  induction s as [|c s IH]; [reflexivity|].
  change (String c s +:+ t) with (String c (s +:+ t)).
  cbn [allChars]. rewrite IH. now rewrite andb_assoc.
Qed.

Lemma allChars_weaken (P Q : ascii -> bool) (s : string) :
  (forall c, P c = true -> Q c = true) ->
  allChars P s = true -> allChars Q s = true.
Proof.
  intros HPQ. induction s as [|c s IH]; [reflexivity|].
  cbn [allChars]. rewrite !andb_true_iff. intros [Hc Hs]. auto.
Qed.

Lemma allChars_not_contains (P : ascii -> bool) (x : ascii) (s : string) :
  P x = false -> allChars P s = true -> GoString.ContainsByte x s = false.
Proof.
  intros Hx. induction s as [|c s IH]; [reflexivity|].
  cbn [allChars GoString.ContainsByte]. rewrite andb_true_iff. intros [Hc Hs].
  rewrite (IH Hs), orb_false_r.
  destruct (Ascii.eqb_spec c x) as [->|]; [congruence|reflexivity].
Qed.

Lemma string_of_uint_digits (d : Decimal.uint) :
  allChars isDigit (NilEmpty.string_of_uint d) = true.
Proof. induction d; cbn [NilEmpty.string_of_uint allChars]; auto. Qed.

Lemma utoa_digits (b : byte) : allChars isDigit (utoa b) = true.
Proof.
  unfold utoa, NilZero.string_of_uint.
  destruct (N.to_uint (Byte.to_N b)) eqn:E; try reflexivity;
    rewrite <- E; apply string_of_uint_digits.
Qed.

Lemma to_uint_nonnil (n : N) : N.to_uint n <> Decimal.Nil.
Proof.
  destruct n; [discriminate|]. apply DecimalPos.Unsigned.to_uint_nonnil.
Qed.

(** Different bytes have different decimal texts. *)
Lemma utoa_inj (a b : byte) : utoa a = utoa b -> a = b.
Proof.
  unfold utoa. intros H.
  apply (f_equal NilZero.uint_of_string) in H.
  rewrite !NilZero.usu in H by apply to_uint_nonnil.
  injection H as H. apply DecimalN.Unsigned.to_uint_inj in H.
  apply (f_equal Byte.of_N) in H. rewrite !Byte.of_to_N in H. congruence.
Qed.

(** Texts of digits followed by a dot split in one way only. *)
Lemma digits_dot_inj (d1 d2 r1 r2 : string) :
  allChars isDigit d1 = true -> allChars isDigit d2 = true ->
  d1 +:+ String "." r1 = d2 +:+ String "." r2 -> d1 = d2 /\ r1 = r2.
Proof.
  revert d2. induction d1 as [|c d1 IH]; intros [|c' d2] H1 H2 H.
  - injection H as ->. auto.
  - change ("" +:+ String "." r1) with (String "." r1) in H.
    change (String c' d2 +:+ String "." r2)
      with (String c' (d2 +:+ String "." r2)) in H.
    injection H as <- _. discriminate H2.
  - change ("" +:+ String "." r2) with (String "." r2) in H.
    change (String c d1 +:+ String "." r1)
      with (String c (d1 +:+ String "." r1)) in H.
    injection H as -> _. discriminate H1.
  - change (String c d1 +:+ String "." r1)
      with (String c (d1 +:+ String "." r1)) in H.
    change (String c' d2 +:+ String "." r2)
      with (String c' (d2 +:+ String "." r2)) in H.
    injection H as -> H. cbn [allChars] in H1, H2.
    apply andb_true_iff in H1, H2.
    destruct (IH d2 (proj2 H1) (proj2 H2) H) as [-> ->]. auto.
Qed.

Lemma string4_four (a b c d : byte) :
  string4 [a; b; c; d] =
    utoa a +:+ String "." (utoa b +:+ String "." (utoa c +:+ String "." (utoa d))).
Proof. reflexivity. Qed.

(** The dotted-decimal text determines the four bytes. *)
Lemma string4_inj (p q : list byte) :
  length p = IPv4len -> length q = IPv4len -> string4 p = string4 q -> p = q.
Proof.
  intros Hp Hq.
  destruct p as [|a [|b [|c [|d [|]]]]]; try discriminate Hp.
  destruct q as [|a' [|b' [|c' [|d' [|]]]]]; try discriminate Hq.
  rewrite !string4_four. intros H.
  apply digits_dot_inj in H; try apply utoa_digits. destruct H as [Ha H].
  apply digits_dot_inj in H; try apply utoa_digits. destruct H as [Hb H].
  apply digits_dot_inj in H; try apply utoa_digits. destruct H as [Hc Hd].
  apply utoa_inj in Ha, Hb, Hc, Hd. congruence.
Qed.

Lemma isDigit_dotted (c : ascii) : isDigit c = true -> isDottedChar c = true.
Proof. unfold isDottedChar. now intros ->. Qed.

Lemma string4_dotted (p : list byte) :
  length p = IPv4len -> allChars isDottedChar (string4 p) = true.
Proof.
  intros Hp. destruct p as [|a [|b [|c [|d [|]]]]]; try discriminate Hp.
  rewrite string4_four.
  repeat (rewrite allChars_app; cbn [allChars]).
  rewrite !(allChars_weaken _ _ _ isDigit_dotted (utoa_digits _)).
  reflexivity.
Qed.

(** Only an IPv4 address, in 4-byte or IPv4-mapped form, has the text of
    an IPv4 address. *)
Lemma IP_String_dotted (peerIP c : IP) :
  length c = IPv4len ->
  IP_String peerIP = string4 c <-> To4 peerIP = Some c.
Proof.
  intros Hc. pose proof (string4_dotted c Hc) as Hd.
  assert (Hno : forall x s, isDottedChar x = false ->
                  GoString.ContainsByte x s = true -> s <> string4 c).
  { intros x s Hx Hs ->.
    rewrite (allChars_not_contains _ _ _ Hx Hd) in Hs. discriminate. }
  unfold IP_String. split.
  - destruct (length peerIP =? 0)%nat eqn:E0.
    { intros H. now apply (Hno "<"%char "<nil>") in H. }
    destruct (negb _) eqn:El.
    { intros H. now apply (Hno "?"%char ("?" +:+ hexString peerIP)) in H. }
    destruct (To4 peerIP) as [p4|] eqn:E4.
    + intros H. f_equal. apply string4_inj; [|assumption..].
      exact (To4_length _ _ E4).
    + intros H. apply (Hno ":"%char _ eq_refl) in H; [destruct H|].
      apply printGroups_has_colon.
  - intros E4.
    assert (Hlen : length peerIP = IPv4len \/ length peerIP = IPv6len).
    { unfold To4 in E4. destruct (length peerIP =? IPv4len)%nat eqn:El4.
      - left. now apply Nat.eqb_eq.
      - destruct (length peerIP =? IPv6len)%nat eqn:El6; [|discriminate].
        right. now apply Nat.eqb_eq. }
    rewrite E4. destruct Hlen as [-> | ->]; reflexivity.
Qed.

End DottedText.

Section AdmissionIPv4.

Lemma To4_some_length (ip c : IP) :
  To4 ip = Some c -> length ip = IPv4len \/ length ip = IPv6len.
Proof.
  unfold To4. destruct (length ip =? IPv4len)%nat eqn:E4.
  - left. now apply Nat.eqb_eq.
  - destruct (length ip =? IPv6len)%nat eqn:E6; [|discriminate].
    right. now apply Nat.eqb_eq.
Qed.

Lemma string4_no_colon (c : IP) :
  length c = IPv4len -> GoString.ContainsByte ":" (string4 c) = false.
Proof.
  intros Hc. apply (allChars_not_contains isDottedChar); [reflexivity|].
  now apply string4_dotted.
Qed.

(** The host part of the text of a UDP or TCP address with an IPv4 address
    and no zone is the dotted-decimal text of the address. *)
Lemma hostPart_ipv4 (ip c : IP) (port : Z) :
  To4 ip = Some c -> hostPart (ipPortString ip port "") = string4 c.
Proof.
  intros E4. pose proof (To4_length _ _ E4) as Hc.
  assert (Htext : ipEmptyString ip = string4 c).
  { unfold ipEmptyString.
    destruct (To4_some_length _ _ E4) as [H|H]; rewrite H; cbn [Nat.eqb IPv4len IPv6len];
      now apply IP_String_dotted. }
  unfold ipPortString. cbn [String.eqb negb].
  rewrite hostPart_JoinHostPort, Htext.
  now rewrite (string4_no_colon c Hc).
Qed.

(** A client with an IPv4 address, seen in 4-byte or in IPv4-mapped form,
    is admitted to a peer exactly when the peer IP is that same IPv4
    address, in either form; the port and the transport play no part. *)
Theorem ipv4_client_admitted_to_own_address_only
  (ip c peerIP : IP) (port : Z) (w : World) :
  To4 ip = Some c ->
  exists b : bool,
    decision (UDPAddr ip port "") peerIP w = Done b /\
    decision (TCPAddr ip port "") peerIP w = Done b /\
    (b = true <-> To4 peerIP = Some c).
Proof.
  intros E4. pose proof (To4_length _ _ E4) as Hc.
  exists (String.eqb (string4 c) (IP_String peerIP)).
  rewrite !decision_eq. cbn [Addr_String]. rewrite (hostPart_ipv4 _ _ _ E4).
  split; [reflexivity|]. split; [reflexivity|].
  rewrite String.eqb_eq, <- (IP_String_dotted peerIP c Hc).
  split; intros H; now symmetry.
Qed.

Lemma ipv4_client_witness :
  To4 (ipOf [0; 0; 0; 0; 0; 0; 0; 0; 0; 0; 255; 255; 10; 0; 0; 5]%N) =
    Some (ipOf [10; 0; 0; 5]%N) /\
  exists b : bool,
    decision (UDPAddr (ipOf [0; 0; 0; 0; 0; 0; 0; 0; 0; 0; 255; 255; 10; 0; 0; 5]%N)
                4000 "") (ipOf [10; 0; 0; 5]%N) emptyWorld = Done b /\
    b = true.
Proof.
  split; [reflexivity|].
  destruct (ipv4_client_admitted_to_own_address_only
              (ipOf [0; 0; 0; 0; 0; 0; 0; 0; 0; 0; 255; 255; 10; 0; 0; 5]%N)
              (ipOf [10; 0; 0; 5]%N) (ipOf [10; 0; 0; 5]%N) 4000 emptyWorld eq_refl)
    as (b & Hudp & _ & Hb).
  exists b. split; [exact Hudp|]. apply Hb. reflexivity.
Defined.

End AdmissionIPv4.

(** * Further properties of the credential index *)

Section CredentialMore.

Variable GenerateAuthKey : string -> string -> string -> list byte.

Abbreviation matches users := (Regexp.FindAllStringSubmatch usersRE users (-1)).
Abbreviation build := (buildUsersMap GenerateAuthKey).

Lemma matches_configOf (pairs : list (string * string)) :
  Forall (fun '(u, p) => isToken u /\ isToken p) pairs ->
  matches (configOf pairs) = map (fun '(u, p) => pairMatch u p) pairs.
Proof.
  induction pairs as [|[u p] pairs IH]; intros Hall; [reflexivity|].
  apply Forall_cons_1 in Hall. destruct Hall as [[Hu Hp] Hall].
  destruct pairs as [|[u' p'] pairs].
  - now apply matches_single_pair.
  - change (configOf ((u, p) :: (u', p') :: pairs))
      with ((u +:+ "=" +:+ p) +:+ String "," (configOf ((u', p') :: pairs))).
    rewrite matches_delimiter by reflexivity.
    rewrite (IH Hall), matches_single_pair by assumption. reflexivity.
Qed.

Lemma lastPassword_pairs (username : string) (pairs : list (string * string)) :
  lastPassword username (map (fun '(u, p) => pairMatch u p) pairs) =
    passwordOf username pairs.
Proof.
  induction pairs as [|[u p] pairs IH]; [reflexivity|].
  cbn [map lastPassword passwordOf pairMatch]. now rewrite IH.
Qed.

(** For a configuration [user=pass,user=pass,...] of tokens the matches are
    exactly its pairs in order, and a lookup succeeds exactly for the user
    names in it, with the key derived from the last password given for the
    name. *)
Theorem index_of_pairs_lookup
  (pairs : list (string * string)) (realm : string) :
  Forall (fun '(u, p) => isToken u /\ isToken p) pairs ->
  matches (configOf pairs) = map (fun '(u, p) => pairMatch u p) pairs /\
  exists m : gmap string (list byte),
    build (configOf pairs) realm = Done m /\
    forall (username realm' : string) (srcAddr : Addr),
      AuthHandler m username realm' srcAddr =
        match passwordOf username pairs with
        | Some p => (GenerateAuthKey username realm p, true)
        | None => ([], false)
        end.
Proof.
  intros Hall. split; [now apply matches_configOf|].
  destruct (buildUsersMap_lookup GenerateAuthKey (configOf pairs) realm)
    as (m & Hm & Hlook).
  exists m. split; [exact Hm|]. intros username realm' srcAddr.
  unfold AuthHandler. rewrite Hlook, (matches_configOf _ Hall), lastPassword_pairs.
  now destruct (passwordOf username pairs).
Qed.

Lemma ContainsByte_app_r (c : ascii) (s t : string) :
  GoString.ContainsByte c t = true -> GoString.ContainsByte c (s +:+ t) = true.
Proof. intros H. rewrite ContainsByte_app, H. apply orb_true_r. Qed.

(** A text without an equals sign has no match. *)
Lemma matches_no_equals (users : string) :
  GoString.ContainsByte "=" users = false -> matches users = [].
Proof.
  intros H. destruct (matches users) as [|kv kvs] eqn:E; [reflexivity|].
  assert (Hin : In kv (matchesOf usersRE users))
    by (unfold matchesOf; rewrite E; now left).
  destruct (matchesOf_shape _ _ Hin) as (u & p & pre & post & _ & _ & _ & Hs).
  rewrite Hs in H.
  rewrite ContainsByte_app_r in H; [discriminate|].
  rewrite ContainsByte_app_r; [reflexivity|]. reflexivity.
Qed.

(** A value of [-users] without an equals sign passes the check of the
    required flags when it is not empty, but the index built from it is
    empty, so no user can authenticate. *)
Theorem users_without_equals_authenticate_nobody
  (publicIP users realm : string) :
  publicIP <> "" -> users <> "" ->
  GoString.ContainsByte "=" users = false ->
  requiredFlags publicIP users = None /\
  build users realm = Done ∅ /\
  forall (username realm' : string) (srcAddr : Addr),
    AuthHandler ∅ username realm' srcAddr = ([], false).
Proof.
  intros Hip Husers Hno. split; [|split].
  - unfold requiredFlags. destruct publicIP; [congruence|].
    destruct users; [congruence|]. reflexivity.
  - unfold buildUsersMap. now rewrite (matches_no_equals _ Hno).
  - intros username realm' srcAddr. unfold AuthHandler.
    now rewrite lookup_empty.
Qed.

(** User names and passwords are cut at bytes that are not word
    characters: of [user=pass] followed by such a byte only the part of the
    password before it is used, and of a name with a delimiter in it only
    the part after the delimiter. *)
Theorem names_and_passwords_cut_at_non_word_bytes
  (x u p rest realm : string) (c : ascii) :
  isToken u -> isToken p ->
  startsWithWord rest = false -> GoString.ContainsByte "=" rest = false ->
  isToken x -> isDelimiter c = true ->
  build (u +:+ "=" +:+ p +:+ rest) realm =
    Done (<[u := GenerateAuthKey u realm p]> ∅) /\
  build (x +:+ String c (u +:+ "=" +:+ p +:+ rest)) realm =
    Done (<[u := GenerateAuthKey u realm p]> ∅).
Proof.
  intros Hu Hp Hrest Hno Hx Hc.
  assert (H1 : matches (u +:+ "=" +:+ p +:+ rest) = [pairMatch u p]).
  { pose proof (matchesOf_pair "" u p rest eq_refl Hu Hp Hrest) as H.
    unfold matchesOf in H.
    change ("" +:+ u +:+ "=" +:+ p +:+ rest) with (u +:+ "=" +:+ p +:+ rest) in H.
    now rewrite H, (matches_no_equals _ Hno). }
  split; unfold buildUsersMap.
  - now rewrite H1.
  - rewrite (matches_delimiter _ _ _ Hc), H1.
    now rewrite (matches_word_alone x Hx).
Qed.

End CredentialMore.

Lemma index_of_pairs_witness :
  exists m : gmap string (list byte),
    buildUsersMap keyText "alice=one,bob=x,alice=two" "pion.ly" = Done m /\
    AuthHandler m "alice" "" (OtherAddr "udp" "") =
      (keyText "alice" "pion.ly" "two", true) /\
    AuthHandler m "carol" "" (OtherAddr "udp" "") = ([], false).
Proof.
  destruct (index_of_pairs_lookup keyText
              [("alice", "one"); ("bob", "x"); ("alice", "two")] "pion.ly")
    as (_ & m & Hm & Hlook).
  - repeat constructor; discriminate.
  - exists m. split; [exact Hm|]. split; apply Hlook.
Defined.

Lemma users_without_equals_witness :
  requiredFlags "203.0.113.7" "alice:one" = None /\
  buildUsersMap keyText "alice:one" "pion.ly" = Done ∅.
Proof.
  destruct (users_without_equals_authenticate_nobody keyText
              "203.0.113.7" "alice:one" "pion.ly") as (H1 & H2 & _);
    try discriminate; [reflexivity|]. auto.
Defined.

Lemma names_and_passwords_cut_witness :
  buildUsersMap keyText "alice=pa$$word" "pion.ly" =
    Done (<["alice" := keyText "alice" "pion.ly" "pa"]> ∅) /\
  buildUsersMap keyText "first-last=secret" "pion.ly" =
    Done (<["last" := keyText "last" "pion.ly" "secret"]> ∅).
Proof.
  assert (Htok : forall s, s <> "" -> allWord s = true -> isToken s) by (now split).
  assert (Halice : isToken "alice") by (apply Htok; [discriminate|reflexivity]).
  assert (Hpa : isToken "pa") by (apply Htok; [discriminate|reflexivity]).
  assert (Hfirst : isToken "first") by (apply Htok; [discriminate|reflexivity]).
  assert (Hlast : isToken "last") by (apply Htok; [discriminate|reflexivity]).
  assert (Hsecret : isToken "secret") by (apply Htok; [discriminate|reflexivity]).
  split.
  - apply (proj1 (names_and_passwords_cut_at_non_word_bytes keyText
                    "first" "alice" "pa" "$$word" "pion.ly" "-"
                    Halice Hpa eq_refl eq_refl Hfirst eq_refl)).
  - apply (proj2 (names_and_passwords_cut_at_non_word_bytes keyText
                    "first" "last" "secret" "" "pion.ly" "-"
                    Hlast Hsecret eq_refl eq_refl Hfirst eq_refl)).
Defined.

(** * Further properties of the Binding responder *)

Section ResponderMore.

Import Stun.

Lemma bindingResponse_bad_length (r : Request) (m : Message) (ip : IP) (port : Z) :
  ipnet.AddrIPPort (SrcAddr r) = inr (ip, port) ->
  length ip <> IPv4len -> length ip <> IPv6len ->
  bindingResponse r m = inl ErrBadIPLength.
Proof.
  intros Haddr H4 H6. unfold bindingResponse. rewrite Haddr.
  unfold Build, util.buildMsg. cbn [app applySetters AddTo].
  unfold addXORMappedAddress.
  rewrite (proj2 (Nat.eqb_neq _ _) H4), (proj2 (Nat.eqb_neq _ _) H6).
  reflexivity.
Qed.

(** When the IP of the source address has neither 4 nor 16 bytes, the
    address attribute cannot be made: the handler returns the error
    [ErrBadIPLength] after the log line and hands nothing to the
    connection. *)
Theorem malformed_ip_error_nothing_sent
  (r : Request) (m : Message) (w : World) (ip : IP) (port : Z) :
  ipnet.AddrIPPort (SrcAddr r) = inr (ip, port) ->
  length ip <> IPv4len -> length ip <> IPv6len ->
  BindingResponder r m w =
    (Done (Some ErrBadIPLength),
     mkWorld (trace w ++ [receivedLine r]) (net_script w)) /\
  writes (new_events w (snd (BindingResponder r m w))) = [].
Proof.
  intros Haddr H4 H6.
  assert (Hrun := BindingResponder_run r m w).
  rewrite (bindingResponse_bad_length r m ip port Haddr H4 H6) in Hrun.
  split; [exact Hrun|]. rewrite Hrun. cbn [snd]. now rewrite new_events_app.
Qed.

Lemma malformed_ip_witness :
  fst (BindingResponder nilClient sampleRequest emptyWorld) =
    Done (Some ErrBadIPLength) /\
  writes (new_events emptyWorld
            (snd (BindingResponder nilClient sampleRequest emptyWorld))) = [].
Proof.
  destruct (malformed_ip_error_nothing_sent nilClient sampleRequest emptyWorld
              [] 5000 eq_refl) as [Hrun Hw]; try discriminate.
  split; [now rewrite Hrun|exact Hw].
Defined.

(** The datagram of a response is what a receiver of STUN expects: it has
    40 bytes for an IPv4 address and 52 for an IPv6 address, a multiple of
    four; its length field holds the number of bytes after the 20-byte
    header; and bytes 4 to 7 hold the magic cookie. *)
Theorem binding_response_wire_format
  (r : Request) (m : Message) (ip : IP) (port : Z) (raw : list byte) :
  ipnet.AddrIPPort (SrcAddr r) = inr (ip, port) ->
  length ip = IPv4len \/ length ip = IPv6len ->
  length (TransactionID m) = TransactionIDSize ->
  bindingResponse r m = inr raw ->
  length raw = (36 + length (canonicalIP ip))%nat /\
  (length raw = 40 \/ length raw = 52)%nat /\
  (length raw mod 4 = 0)%nat /\
  Uint16 (take 2 (drop 2 raw)) = Z.of_nat (length raw - messageHeaderSize) /\
  Uint32 (take 4 (drop 4 raw)) = magicCookie.
Proof.
  intros Haddr Hlen Htid Hresp.
  rewrite (bindingResponse_ok r m ip port Haddr Hlen Htid) in Hresp.
  assert (Hr : raw = Raw (bindingSuccessFor (TransactionID m) ip port))
    by congruence.
  subst raw. clear Hresp.
  set (tid := TransactionID m) in *.
  destruct (length_xorAddressValue tid ip port Hlen) as [Hv Hq].
  set (v := xorAddressValue tid ip port) in *.
  set (f := fingerprintOf BindingSuccess tid (wireAttribute AttrXORMappedAddress v)).
  set (body := wireAttribute AttrXORMappedAddress v ++ wireAttribute AttrFingerprint f).
  assert (Hbody : length body = (16 + length (canonicalIP ip))%nat).
  { unfold body. rewrite length_app, !length_wireAttribute, Hv.
    change (length f) with 4%nat. unfold attributeHeaderSize. lia. }
  assert (Hraw : Raw (bindingSuccessFor tid ip port) =
                 wireHeader BindingSuccess (Z.of_nat (length body)) tid ++ body)
    by reflexivity.
  assert (Hl : length (Raw (bindingSuccessFor tid ip port)) =
               (36 + length (canonicalIP ip))%nat).
  { rewrite Hraw, length_app, length_wireHeader, Htid, Hbody.
    unfold TransactionIDSize. lia. }
  assert (Hsmall : (0 <= Z.of_nat (length body) < 2 ^ 16)%Z).
  { rewrite Hbody. change (2 ^ 16)%Z with 65536%Z.
    destruct Hq as [-> | ->]; lia. }
  split; [exact Hl|]. split; [|split; [|split]].
  - rewrite Hl. destruct Hq as [-> | ->]; auto.
  - rewrite Hl. destruct Hq as [-> | ->]; reflexivity.
  - rewrite Hl.
    change (take 2 (drop 2 (Raw (bindingSuccessFor tid ip port))))
      with (PutUint16 (uint16 (Z.of_nat (length body)))).
    rewrite (uint16_small _ Hsmall), (Uint16_PutUint16 _ Hsmall), Hbody.
    unfold messageHeaderSize. lia.
  - change (take 4 (drop 4 (Raw (bindingSuccessFor tid ip port))))
      with (PutUint32 magicCookie).
    apply Uint32_PutUint32. unfold magicCookie. lia.
Qed.

Lemma binding_response_wire_witness :
  exists raw : list byte,
    bindingResponse udpClient sampleRequest = inr raw /\ length raw = 40%nat.
Proof.
  exists (Raw (bindingSuccessFor (TransactionID sampleRequest)
                 (ipOf [192; 0; 2; 1]%N) 5000)).
  assert (H : bindingResponse udpClient sampleRequest =
              inr (Raw (bindingSuccessFor (TransactionID sampleRequest)
                          (ipOf [192; 0; 2; 1]%N) 5000)))
    by (apply bindingResponse_ok; [reflexivity|left; reflexivity|reflexivity]).
  split; [exact H|].
  destruct (binding_response_wire_format udpClient sampleRequest
              (ipOf [192; 0; 2; 1]%N) 5000 _ eq_refl (or_introl eq_refl) eq_refl H)
    as (Hl & _).
  rewrite Hl. reflexivity.
Defined.



End ResponderMore.
